(** * gencodec: a shallow embedding of [main.go]

    The generator reads a struct type, builds the intermediate
    marshaling type ([marshalerType]), optionally merges field type
    overrides into it, resolves the import aliases and renders four
    methods from text templates.

    Go strings are byte sequences and are modelled by [string]; Go maps
    by [gmap]; [fatal]/[fatalf] and run-time panics by the [outcome]
    type.  The functions of [go/types], [reflect] and [strings] that the
    program calls are collected in the class [GoLib]. *)

From Stdlib Require Import Ascii ZArith.
From stdpp Require Import base strings list gmap sorting pretty.

(** ** Characters that the templates contain *)

Definition nl : string := String "010"%char EmptyString.
Definition tab : string := String "009"%char EmptyString.
Definition dquote : string := String "034"%char EmptyString.

(** ** Process outcomes

    [fatal] and [fatalf] print a message on the error stream and leave
    the process with status 1; a panic aborts it as well.  A failed
    outcome keeps the message of the failure only, not the warnings
    printed before it. *)

Inductive panic_reason :=
| NilDereference
| SliceOutOfRange
| TypeAssertion
| CantWalk.

Inductive outcome (A : Type) : Type :=
| Ok (a : A)
| Fatal (msg : string)
| Panic (why : panic_reason).

Arguments Ok {A} a.
Arguments Fatal {A} msg.
Arguments Panic {A} why.

Definition bind {A B : Type} (o : outcome A) (k : A -> outcome B) : outcome B :=
  match o with
  | Ok a => k a
  | Fatal msg => Fatal msg
  | Panic why => Panic why
  end.

Notation "'do' x <~ c ;; k" := (bind c (fun x => k))
  (at level 10, x pattern, c at level 99, k at level 200).

Definition is_ok {A : Type} (o : outcome A) : bool :=
  match o with Ok _ => true | _ => false end.

(** ** The [go/types] data the program inspects *)

(** A [*types.Package]: [pkg_id] stands for the pointer identity,
    [pkg_name] is the name the package declares.  [SetName] does not
    change this record: renames live in a store keyed by [pkg_id]. *)
Record Package := mkPackage {
  pkg_id : N;
  pkg_name : string;
  pkg_path : string
}.

(** The [*types.TypeName] of a named type; [obj_pkg] is [None] (nil) for
    the types of the universe scope such as [error]. *)
Record TypeName := mkTypeName {
  obj_pkg : option Package;
  obj_name : string
}.

Inductive type :=
| Array (len : Z) (elem : type)
| Basic (name : string)
| Chan (elem : type)
| Interface
| Map (key elem : type)
| Named (obj : TypeName)
| Pointer (elem : type)
| Signature
| Slice (elem : type)
| Struct (fields : list Var) (tags : list string)
| Tuple
with Var :=
| mkVar (pos : Z) (name : string) (ty : type) (anonymous exported : bool).

Definition var_pos (v : Var) : Z := let 'mkVar p _ _ _ _ := v in p.
Definition var_name (v : Var) : string := let 'mkVar _ n _ _ _ := v in n.
Definition var_type (v : Var) : type := let 'mkVar _ _ t _ _ := v in t.
Definition var_anonymous (v : Var) : bool := let 'mkVar _ _ _ a _ := v in a.
Definition var_exported (v : Var) : bool := let 'mkVar _ _ _ _ e := v in e.

(** A [*types.Named] as [lookupStructType] returns it: the object and
    the underlying type. *)
Record NamedType := mkNamed {
  named_obj : TypeName;
  named_underlying : type
}.

(** The method [Tag] of [types.Struct]. *)
Definition Tag (tags : list string) (i : nat) : string :=
  default EmptyString (tags !! i).

(** Comparison of two [*types.Package] pointers. *)
Definition same_pkg (p q : option Package) : bool :=
  match p, q with
  | None, None => true
  | Some a, Some b => bool_decide (pkg_id a = pkg_id b)
  | _, _ => false
  end.

(** The names given by [SetName], by package identity. *)
Abbreviation pkgNames := (gmap N string).

Definition pkgName (names : pkgNames) (p : Package) : string :=
  default (pkg_name p) (names !! pkg_id p).

Definition SetName (p : Package) (name : string) (names : pkgNames) : pkgNames :=
  <[pkg_id p := name]> names.

(** ** Library functions

    [ConvertibleTo], [AssignableTo] and [TypeString] are the functions
    of [go/types]; [Position] is [fs.Position(pos).String()];
    [StructTag_Get] is [reflect.StructTag(tag).Get(key)]; [ToLower] and
    [ToUpper] are those of [strings]. *)
Class GoLib := {
  ConvertibleTo : type -> type -> bool;
  AssignableTo : type -> type -> bool;
  TypeString : type -> (Package -> string) -> string;
  Position : Z -> string;
  StructTag_Get : string -> string -> string;
  ToLower : string -> string;
  ToUpper : string -> string
}.

(** [strings.Index]: the byte offset of the first occurrence, or -1. *)
Definition strings_Index (s substr : string) : Z :=
  match String.index 0 substr s with
  | Some n => Z.of_nat n
  | None => (-1)%Z
  end.

(** [strings.HasPrefix]. *)
Definition strings_HasPrefix (s prefix : string) : bool :=
  (String.length prefix <=? String.length s)%nat &&
  bool_decide (String.substring 0 (String.length prefix) s = prefix).

(** [strconv.Itoa]. *)
Definition strconv_Itoa (n : Z) : string := pretty n.

(** [counter++] on a Go [int] (64 bits). *)
Definition int_incr (n : Z) : Z :=
  if (n + 1 <? 2 ^ 63)%Z then (n + 1)%Z else (- 2 ^ 63)%Z.

(** ** The intermediate marshaling type *)

(** [marshalerField]; the [parent] pointer is passed to the methods as
    an argument. *)
Record marshalerField := mkField {
  field : Var;
  typ : type;
  tag : string
}.

Record marshalerType := mkType {
  OrigName : string;
  Name : string;
  Fields : list marshalerField;
  orig : NamedType
}.

Definition isPointer (t : type) : bool :=
  match t with Pointer _ => true | _ => false end.

Definition ensurePointer (t : type) : type :=
  if isPointer t then t else Pointer t.

Definition mf_Name (mf : marshalerField) : string := var_name (field mf).

Definition set_typ (mf : marshalerField) (t : type) : marshalerField :=
  {| field := field mf; typ := t; tag := tag mf |}.

Definition set_tag (mf : marshalerField) (s : string) : marshalerField :=
  {| field := field mf; typ := typ mf; tag := s |}.

Definition set_Fields (mtyp : marshalerType) (fs : list marshalerField) : marshalerType :=
  {| OrigName := OrigName mtyp; Name := Name mtyp; Fields := fs; orig := orig mtyp |}.

(** [uncapitalize]: [s[:1]] panics on the empty string. *)
Definition uncapitalize `{GoLib} (s : string) : outcome string :=
  match s with
  | EmptyString => Panic SliceOutOfRange
  | String c rest => Ok (ToLower (String c EmptyString) +:+ rest)
  end.

Section Builder.
Context `{GoLib}.

(** [mf.errorf] with the format already expanded into [text]. *)
Definition errorf (origName : string) (f : Var) (text : string) : string :=
  Position (var_pos f) +:+ ": (" +:+ origName +:+ "." +:+ var_name f +:+ ") " +:+ text.

(** The loop of [newMarshalerType]: [fs] holds the fields from index
    [i] on; the result is the list of appended fields and the lines
    written to the error stream. *)
Fixpoint newMarshalerType_loop (origName : string) (tags : list string)
    (i : nat) (fs : list Var) (acc : list marshalerField) (stderr : list string)
    : list marshalerField * list string :=
  match fs with
  | [] => (acc, stderr)
  | f :: rest =>
      if negb (var_exported f) then
        newMarshalerType_loop origName tags (S i) rest acc stderr
      else
        let mf := {| field := f; typ := ensurePointer (var_type f); tag := Tag tags i |} in
        if var_anonymous f then
          newMarshalerType_loop origName tags (S i) rest acc
            (stderr ++ [errorf origName f "Warning: ignoring embedded field"])
        else
          newMarshalerType_loop origName tags (S i) rest (acc ++ [mf]) stderr
  end.

Definition newMarshalerType (t : NamedType) : outcome (marshalerType * list string) :=
  let name := obj_name (named_obj t) +:+ "JSON" in
  match named_underlying t with
  | Struct fields tags =>
      let '(fs, stderr) :=
        newMarshalerType_loop (obj_name (named_obj t)) tags 0 fields [] [] in
      Ok ({| OrigName := obj_name (named_obj t); Name := name; Fields := fs; orig := t |},
          stderr)
  | _ => Panic TypeAssertion
  end.

(** [fieldByName] returns a pointer into [mtyp.Fields]: the index of
    the first field of that name, together with the field. *)
Fixpoint fieldByName_from (i : nat) (fs : list marshalerField) (name : string)
    : option (nat * marshalerField) :=
  match fs with
  | [] => None
  | f :: rest =>
      if bool_decide (var_name (field f) = name) then Some (i, f)
      else fieldByName_from (S i) rest name
  end.

Definition fieldByName (mtyp : marshalerType) (name : string)
    : option (nat * marshalerField) :=
  fieldByName_from 0 (Fields mtyp) name.

Definition typeString (mtyp : marshalerType) (names : pkgNames) (t : type) : string :=
  TypeString t (fun pkg =>
    if same_pkg (Some pkg) (obj_pkg (named_obj (orig mtyp))) then EmptyString
    else pkgName names pkg).

(** One iteration of the loop of [loadOverrides]. *)
Definition loadOverrides_step (names : pkgNames) (mtyp : marshalerType) (of_ : Var)
    : outcome marshalerType :=
  if var_anonymous of_ || negb (var_exported of_) then
    Fatal (Position (var_pos of_) +:+
           ": field override type cannot have embedded or unexported fields")
  else
    match fieldByName mtyp (var_name of_) with
    | None =>
        Fatal (Position (var_pos of_) +:+ ": no matching field for " +:+ var_name of_ +:+
               " in original type " +:+ OrigName mtyp)
    | Some (i, f) =>
        if negb (ConvertibleTo (var_type of_) (var_type (field f))) then
          Fatal (Position (var_pos of_) +:+ ": field override type " +:+
                 typeString mtyp names (var_type of_) +:+ " is not convertible to " +:+
                 typeString mtyp names (var_type (field f)))
        else
          Ok (set_Fields mtyp (<[i := set_typ f (ensurePointer (var_type of_))]> (Fields mtyp)))
    end.

Fixpoint loadOverrides_loop (names : pkgNames) (mtyp : marshalerType) (ofs : list Var)
    : outcome marshalerType :=
  match ofs with
  | [] => Ok mtyp
  | of_ :: rest =>
      do mtyp' <~ loadOverrides_step names mtyp of_ ;;
      loadOverrides_loop names mtyp' rest
  end.

(** [loadOverrides] sets field types of the intermediate marshaling
    type from matching fields of [otyp], given by its fields. *)
Definition loadOverrides (names : pkgNames) (mtyp : marshalerType)
    (otypename : string) (otyp : list Var) : outcome marshalerType :=
  loadOverrides_loop names mtyp otyp.

(** The first statements of [makeMarshalingCode], after the lookups:
    [typ] and [otyp] are what [lookupStructType] returned, [otyp]
    being absent when no override type is named. *)
Definition makeMarshalerType (names : pkgNames) (typ : NamedType)
    (otyp : option (string * NamedType)) : outcome (marshalerType * list string) :=
  do (mtyp, stderr) <~ newMarshalerType typ ;;
  match otyp with
  | None => Ok (mtyp, stderr)
  | Some (otypename, o) =>
      match named_underlying o with
      | Struct fields _ =>
          do mtyp' <~ loadOverrides names mtyp otypename fields ;;
          Ok (mtyp', stderr)
      | _ => Panic TypeAssertion
      end
  end.

End Builder.

(** ** Import aliases *)

(** The variables captured by the closures of [computeImports], and the
    package names that [SetName] overwrites. *)
Record importState := mkImports {
  seen : gmap string string;
  counter : Z;
  names : pkgNames
}.

(** [seen[name]]: a missing key reads as the empty string. *)
Definition seen_get (m : gmap string string) (name : string) : string :=
  default EmptyString (m !! name).

(** The closure [add]. *)
Definition add (name path : string) (pkg : option Package) (s : importState)
    : outcome importState :=
  if bool_decide (seen_get (seen s) name = path) then Ok s
  else
    let '(name1, names1) :=
      match pkg with
      | Some p => ("_" +:+ name, SetName p ("_" +:+ name) (names s))
      | None => (name, names s)
      end in
    if bool_decide (seen_get (seen s) name1 = EmptyString) then
      Ok {| seen := <[name1 := path]> (seen s); counter := counter s; names := names1 |}
    else
      (* Name clash, add counter. *)
      let name2 := name1 +:+ "_" +:+ strconv_Itoa (counter s) in
      match pkg with
      | Some p =>
          Ok {| seen := <[name2 := path]> (seen s);
                counter := int_incr (counter s);
                names := SetName p name2 names1 |}
      | None => Panic NilDereference
      end.

(** The closure [addNamed]; [pkg.Name()] on a nil package panics. *)
Definition addNamed (mtyp : marshalerType) (t : TypeName) (s : importState)
    : outcome importState :=
  if negb (same_pkg (obj_pkg t) (obj_pkg (named_obj (orig mtyp)))) then
    match obj_pkg t with
    | Some p => add (pkgName (names s) p) (pkg_path p) (Some p) s
    | None => Panic NilDereference
    end
  else Ok s.

(** [walkNamedTypes]; the callback threads the state [S]. *)
Fixpoint walkNamedTypes {S : Type} (t : type)
    (callback : TypeName -> S -> outcome S) (s : S) : outcome S :=
  match t with
  | Basic _ => Ok s
  | Chan elem => walkNamedTypes elem callback s
  | Map key elem =>
      do s1 <~ walkNamedTypes key callback s ;;
      walkNamedTypes elem callback s1
  | Named obj => callback obj s
  | Pointer elem => walkNamedTypes elem callback s
  | Slice elem => walkNamedTypes elem callback s
  | Struct fields _ =>
      (fix walkFields (fs : list Var) (s : S) : outcome S :=
         match fs with
         | [] => Ok s
         | mkVar _ _ ty _ _ :: rest =>
             do s1 <~ walkNamedTypes ty callback s ;;
             walkFields rest s1
         end) fields s
  | Array _ _ | Interface | Signature | Tuple => Panic CantWalk
  end.

Fixpoint computeImports_loop (mtyp : marshalerType) (fs : list marshalerField)
    (s : importState) : outcome importState :=
  match fs with
  | [] => Ok s
  | f :: rest =>
      do s1 <~ walkNamedTypes (typ f) (addNamed mtyp) s ;;
      do s2 <~ walkNamedTypes (var_type (field f)) (addNamed mtyp) s1 ;;
      computeImports_loop mtyp rest s2
  end.

(** [computeImports]: the returned state holds the map [seen] and the
    package names after the renames. *)
Definition computeImports (mtyp : marshalerType) (names0 : pkgNames)
    : outcome importState :=
  do s1 <~ add "json" "encoding/json" None
             {| seen := ∅; counter := 0; names := names0 |} ;;
  do s2 <~ add "errors" "errors" None s1 ;;
  computeImports_loop mtyp (Fields mtyp) s2.

(** The concatenation of a list of strings. *)
Definition concatAll (l : list string) : string := foldr String.app EmptyString l.

(** The import block of [makeMarshalingCode].  A template that ranges
    over a map visits the keys in sorted order ([String.le] is the
    order of Go strings, byte by byte); [keys] is the order in which the
    run time hands the keys of [m] to the template. *)
Definition renderImports (keys : list string) (m : gmap string string) : string :=
  "import (" +:+
  concatAll
    (map (fun name => nl +:+ tab +:+ name +:+ " " +:+ dquote +:+ seen_get m name +:+ dquote)
         (merge_sort String.le keys)) +:+
  nl +:+ ")".

(** The keys of a Go map, in an order the language leaves open. *)
Definition MapKeys (m : gmap string string) (keys : list string) : Prop :=
  keys ≡ₚ (map_to_list m).*1.

(** ** Conversions and method templates *)

Section Templates.
Context `{GoLib}.

(** The element type of a pointer type; [conversionExpr] asks for it
    only after [isPointer] has answered yes. *)
Definition Elem (t : type) : type :=
  match t with Pointer elem => elem | _ => t end.

Definition conversionExpr (mtyp : marshalerType) (names : pkgNames)
    (valueExpr : string) (from to : type) : string :=
  let '(valueExpr, from) :=
    if isPointer from && negb (isPointer to) then
      ("*" +:+ valueExpr, Elem from)
    else if negb (isPointer from) && isPointer to then
      ("&" +:+ valueExpr, Pointer from)
    else (valueExpr, from) in
  if AssignableTo from to then valueExpr
  else "(" +:+ typeString mtyp names to +:+ ")(" +:+ valueExpr +:+ ")".

Definition Convert (mtyp : marshalerType) (names : pkgNames)
    (mf : marshalerField) (variable : string) : string :=
  let expr := variable +:+ "." +:+ var_name (field mf) in
  conversionExpr mtyp names expr (var_type (field mf)) (typ mf).

Definition ConvertBack (mtyp : marshalerType) (names : pkgNames)
    (mf : marshalerField) (variable : string) : string :=
  let expr := variable +:+ "." +:+ var_name (field mf) in
  conversionExpr mtyp names expr (typ mf) (var_type (field mf)).

Definition mf_Type (mtyp : marshalerType) (names : pkgNames) (mf : marshalerField)
    : string :=
  typeString mtyp names (typ mf).

Definition StructTag (mf : marshalerField) : string :=
  if bool_decide (tag mf = EmptyString) then EmptyString
  else "`" +:+ tag mf +:+ "`".

(** [isOptional] returns whether the field is optional when decoding
    the given format. *)
Definition isOptional (mf : marshalerField) (format : string) : bool :=
  if bool_decide (StructTag_Get (tag mf) "optional" = "true")
     || bool_decide (StructTag_Get (tag mf) "optional" = "yes")
  then true
  else strings_HasPrefix (StructTag_Get (tag mf) format) "-".

(** [encodedName] returns the alternative field name assigned by the
    format's struct tag. *)
Definition encodedName (mf : marshalerField) (format : string) : outcome string :=
  let val := StructTag_Get (tag mf) format in
  let comma := strings_Index val "," in
  let val := if bool_decide (comma ≠ (-1)%Z)
             then String.substring 0 (Z.to_nat comma) val else val in
  if bool_decide (val = EmptyString) || bool_decide (val = "-")
  then uncapitalize (mf_Name mf)
  else Ok val.

(** The two templates of [UnmarshalConversions], rendered on a
    [fieldContext]. *)
Definition optionalTemplate (Name_ Conv : string) : string :=
  "if dec." +:+ Name_ +:+ " != nil {" +:+
  nl +:+ tab +:+ tab +:+ tab +:+ tab +:+ tab +:+ "v." +:+ Name_ +:+ " = " +:+ Conv +:+
  nl +:+ tab +:+ tab +:+ tab +:+ tab +:+ "}".

Definition requiredTemplate (Typ Name_ EncName Conv : string) : string :=
  "if dec." +:+ Name_ +:+ " == nil {" +:+
  nl +:+ tab +:+ tab +:+ tab +:+ tab +:+ tab +:+
    "return errors.New(" +:+ dquote +:+ "missing required field '" +:+ EncName +:+
    "' in " +:+ Typ +:+ dquote +:+ ")" +:+
  nl +:+ tab +:+ tab +:+ tab +:+ tab +:+ "}" +:+
  nl +:+ tab +:+ tab +:+ tab +:+ tab +:+ "v." +:+ Name_ +:+ " = " +:+ Conv.

(** The loop of [UnmarshalConversions], [s] being the text so far. *)
Fixpoint UnmarshalConversions_loop (mtyp : marshalerType) (names : pkgNames)
    (formatTag : string) (fs : list marshalerField) (s : string) : outcome string :=
  match fs with
  | [] => Ok s
  | mf :: rest =>
      let Typ := ToUpper formatTag +:+ " " +:+ OrigName mtyp in
      let Name_ := mf_Name mf in
      do EncName <~ encodedName mf formatTag ;;
      let Conv := ConvertBack mtyp names mf "dec" in
      let s :=
        if isOptional mf formatTag
        then s +:+ optionalTemplate Name_ Conv
        else s +:+ requiredTemplate Typ Name_ EncName Conv in
      UnmarshalConversions_loop mtyp names formatTag rest (s +:+ nl)
  end.

Definition UnmarshalConversions (mtyp : marshalerType) (names : pkgNames)
    (formatTag : string) : outcome string :=
  UnmarshalConversions_loop mtyp names formatTag (Fields mtyp) EmptyString.

(** A [range .Fields] action of a template: the body is rendered for
    each field in turn and appended to the output. *)
Fixpoint rangeFields (body : marshalerField -> string) (fs : list marshalerField)
    (out : string) : string :=
  match fs with
  | [] => out
  | mf :: rest => rangeFields body rest (out +:+ body mf)
  end.

(** [TypeDecl] generates the declaration of the intermediate
    marshaling type. *)
Definition TypeDecl (mtyp : marshalerType) (names : pkgNames) : string :=
  rangeFields
    (fun mf => nl +:+ tab +:+ tab +:+ tab +:+
               mf_Name mf +:+ " " +:+ mf_Type mtyp names mf +:+ " " +:+ StructTag mf)
    (Fields mtyp)
    ("type " +:+ Name mtyp +:+ " struct{")
  +:+ nl +:+ tab +:+ "}".

(** The [range] body shared by [JSONMarshalMethod] and
    [YAMLMarshalMethod]. *)
Definition marshalEntry (mtyp : marshalerType) (names : pkgNames)
    (mf : marshalerField) : string :=
  nl +:+ tab +:+ tab +:+ tab +:+ mf_Name mf +:+ ": " +:+ Convert mtyp names mf "x" +:+ ",".

Definition JSONMarshalMethod (mtyp : marshalerType) (names : pkgNames) : string :=
  rangeFields (marshalEntry mtyp names) (Fields mtyp)
    ("// MarshalJSON implements json.Marshaler." +:+ nl +:+
     "func (x *" +:+ OrigName mtyp +:+ ") MarshalJSON() ([]byte, error) {" +:+ nl +:+
     tab +:+ TypeDecl mtyp names +:+ nl +:+
     nl +:+
     tab +:+ "return json.Marshal(&" +:+ Name mtyp +:+ "{")
  +:+ nl +:+ tab +:+ "})" +:+ nl +:+ "}".

Definition YAMLMarshalMethod (mtyp : marshalerType) (names : pkgNames) : string :=
  rangeFields (marshalEntry mtyp names) (Fields mtyp)
    ("// MarshalYAML implements yaml.Marshaler" +:+ nl +:+
     "func (x *" +:+ OrigName mtyp +:+ ") MarshalYAML() (interface{}, error) {" +:+ nl +:+
     tab +:+ TypeDecl mtyp names +:+ nl +:+
     nl +:+
     tab +:+ "return &" +:+ Name mtyp +:+ "{")
  +:+ nl +:+ tab +:+ "}, nil" +:+ nl +:+ "}".

Definition JSONUnmarshalMethod (mtyp : marshalerType) (names : pkgNames)
    : outcome string :=
  do conversions <~ UnmarshalConversions mtyp names "json" ;;
  Ok ("// UnmarshalJSON implements json.Unmarshaler." +:+ nl +:+
      "func (x *" +:+ OrigName mtyp +:+ ") UnmarshalJSON(input []byte) error {" +:+ nl +:+
      tab +:+ TypeDecl mtyp names +:+ nl +:+
      nl +:+
      tab +:+ "var dec " +:+ Name mtyp +:+ nl +:+
      tab +:+ "if err := json.Unmarshal(input, &dec); err != nil {" +:+ nl +:+
      tab +:+ tab +:+ "return err" +:+ nl +:+
      tab +:+ "}" +:+ nl +:+
      tab +:+ "var v " +:+ OrigName mtyp +:+ nl +:+
      tab +:+ conversions +:+ nl +:+
      tab +:+ "*x = v" +:+ nl +:+
      tab +:+ "return nil" +:+ nl +:+
      "}").

Definition YAMLUnmarshalMethod (mtyp : marshalerType) (names : pkgNames)
    : outcome string :=
  do conversions <~ UnmarshalConversions mtyp names "yaml" ;;
  Ok ("// UnmarshalYAML implements yaml.Unmarshaler." +:+ nl +:+
      "func (x *" +:+ OrigName mtyp +:+
        ") UnmarshalYAML(fn func (interface{}) error) error {" +:+ nl +:+
      tab +:+ TypeDecl mtyp names +:+ nl +:+
      nl +:+
      tab +:+ "var dec " +:+ Name mtyp +:+ nl +:+
      tab +:+ "if err := fn(&dec); err != nil {" +:+ nl +:+
      tab +:+ tab +:+ "return err" +:+ nl +:+
      tab +:+ "}" +:+ nl +:+
      tab +:+ "var v " +:+ OrigName mtyp +:+ nl +:+
      tab +:+ conversions +:+ nl +:+
      tab +:+ "*x = v" +:+ nl +:+
      tab +:+ "return nil" +:+ nl +:+
      "}").

End Templates.

(** ** The generated file *)

Section Generator.
Context `{GoLib}.

(** [makeMarshalingCode] up to the buffer [w] that is handed to
    [imports.Process].  [mapKeys] is the order in which the run time
    enumerates the keys of a map; the result pairs the buffer with the
    lines written to the error stream. *)
Definition makeMarshalingCode (mapKeys : gmap string string -> list string)
    (pkg : Package) (typ : NamedType) (otyp : option (string * NamedType))
    : outcome (string * list string) :=
  do (mtyp, stderr) <~ makeMarshalerType ∅ typ otyp ;;
  do s <~ computeImports mtyp ∅ ;;
  let importBlock := renderImports (mapKeys (seen s)) (seen s) in
  let jsonMarshal := JSONMarshalMethod mtyp (names s) in
  do jsonUnmarshal <~ JSONUnmarshalMethod mtyp (names s) ;;
  let yamlMarshal := YAMLMarshalMethod mtyp (names s) in
  do yamlUnmarshal <~ YAMLUnmarshalMethod mtyp (names s) ;;
  Ok ("// generated by gencodec, do not edit." +:+ nl +:+ nl +:+
      "package  " +:+ pkgName (names s) pkg +:+ nl +:+
      importBlock +:+ nl +:+
      nl +:+
      jsonMarshal +:+ nl +:+
      nl +:+
      jsonUnmarshal +:+ nl +:+
      nl +:+
      yamlMarshal +:+ nl +:+
      nl +:+
      yamlUnmarshal +:+ nl,
      stderr).

End Generator.

(** ** The rules of the conversion and of the tags, in the words of the
    specification *)

Section Rules.
Context `{GoLib}.

(** The value taken through the two normalisation rules. *)
Definition normalized (valueExpr : string) (from to : type) : string * type :=
  match from, to with
  | Pointer _, Pointer _ => (valueExpr, from)
  | Pointer elem, _ => ("*" +:+ valueExpr, elem)
  | _, Pointer _ => ("&" +:+ valueExpr, Pointer from)
  | _, _ => (valueExpr, from)
  end.

(** Identity when assignable, an explicit coercion otherwise. *)
Definition conversionRule (mtyp : marshalerType) (names : pkgNames)
    (valueExpr : string) (from to : type) : string :=
  let '(expr, adjusted) := normalized valueExpr from to in
  if AssignableTo adjusted to then expr
  else "(" +:+ typeString mtyp names to +:+ ")(" +:+ expr +:+ ")".

(** The text of [s] before the first separator [sep]; all of [s] when
    there is none. *)
Fixpoint beforeSeparator (sep : ascii) (s : string) : string :=
  match s with
  | EmptyString => EmptyString
  | String c rest =>
      if bool_decide (c = sep) then EmptyString
      else String c (beforeSeparator sep rest)
  end.

(** The name under which a field is encoded. *)
Definition encodedNameRule (mf : marshalerField) (format : string) : outcome string :=
  let renamed := beforeSeparator ","%char (StructTag_Get (tag mf) format) in
  if bool_decide (renamed = EmptyString ∨ renamed = "-")
  then uncapitalize (mf_Name mf)
  else Ok renamed.

(** The decode logic of one field. *)
Definition decodeRule (mtyp : marshalerType) (names : pkgNames) (formatTag : string)
    (mf : marshalerField) (encName : string) : string :=
  if isOptional mf formatTag then
    optionalTemplate (mf_Name mf) (ConvertBack mtyp names mf "dec")
  else
    requiredTemplate (ToUpper formatTag +:+ " " +:+ OrigName mtyp) (mf_Name mf) encName
      (ConvertBack mtyp names mf "dec").

(** What [loadOverrides] checks of one field of the override type:
    it is neither embedded nor unexported, a field of the original
    type has its name, and its type converts to the declared type of
    that field. *)
Definition overrideChecked (mtyp : marshalerType) (of_ : Var) : Prop :=
  var_anonymous of_ = false /\ var_exported of_ = true /\
  exists i f, fieldByName mtyp (var_name of_) = Some (i, f) /\
              ConvertibleTo (var_type of_) (var_type (field f)) = true.

(** The wire type after the override [of_] replaced the type of the
    field [f] at index [i]. *)
Definition overridden (mtyp : marshalerType) (i : nat) (f : marshalerField)
    (of_ : Var) : marshalerType :=
  set_Fields mtyp (<[i := set_typ f (ensurePointer (var_type of_))]> (Fields mtyp)).

(** Convertibility in both directions between the pointer forms of
    two types. *)
Definition convertibleBothWays (a b : type) : bool :=
  ConvertibleTo (ensurePointer a) (ensurePointer b)
  && ConvertibleTo (ensurePointer b) (ensurePointer a).

(** The wire field made from the descriptor at index [i]. *)
Definition wireField (tags : list string) (entry : nat * Var) : marshalerField :=
  {| field := entry.2; typ := ensurePointer (var_type entry.2); tag := Tag tags entry.1 |}.

Definition included (entry : nat * Var) : bool :=
  var_exported entry.2 && negb (var_anonymous entry.2).

Definition warned (entry : nat * Var) : bool :=
  var_exported entry.2 && var_anonymous entry.2.

End Rules.

(** ** Lookups in the package scope *)

(** An object of the package scope, as far as [lookupType] tells
    objects apart: a type name, with the named type that is its type
    ([None] when its type is of another kind, as for an alias of an
    unnamed type), or an object of another kind. *)
Inductive Object :=
| ObjTypeName (named : option NamedType)
| ObjOther.

(** The result [(value, error)] of a Go function. *)
Inductive result (A : Type) : Type :=
| Value (a : A)
| Error (err : string).

Arguments Value {A} a.
Arguments Error {A} err.

Definition lookupType (scope : gmap string Object) (name : string)
    : outcome (result NamedType) :=
  match scope !! name with
  | None => Ok (Error "no such identifier")
  | Some ObjOther => Ok (Error "not a type")
  | Some (ObjTypeName None) => Panic TypeAssertion
  | Some (ObjTypeName (Some t)) => Ok (Value t)
  end.

Definition lookupStructType (scope : gmap string Object) (name : string)
    : outcome (result NamedType) :=
  do r <~ lookupType scope name ;;
  match r with
  | Error err => Ok (Error err)
  | Value t =>
      match named_underlying t with
      | Struct _ _ => Ok (Value t)
      | _ => Ok (Error "not a struct type")
      end
  end.

Section Driver.
Context `{GoLib}.

(** The statements of [makeMarshalingCode] that follow the completion
    of [mtyp], up to the buffer handed to [imports.Process]. *)
Definition writeCode (mapKeys : gmap string string -> list string)
    (pkg : Package) (mtyp : marshalerType) (stderr : list string)
    : outcome (string * list string) :=
  do s <~ computeImports mtyp ∅ ;;
  let importBlock := renderImports (mapKeys (seen s)) (seen s) in
  let jsonMarshal := JSONMarshalMethod mtyp (names s) in
  do jsonUnmarshal <~ JSONUnmarshalMethod mtyp (names s) ;;
  let yamlMarshal := YAMLMarshalMethod mtyp (names s) in
  do yamlUnmarshal <~ YAMLUnmarshalMethod mtyp (names s) ;;
  Ok ("// generated by gencodec, do not edit." +:+ nl +:+ nl +:+
      "package  " +:+ pkgName (names s) pkg +:+ nl +:+
      importBlock +:+ nl +:+
      nl +:+
      jsonMarshal +:+ nl +:+
      nl +:+
      jsonUnmarshal +:+ nl +:+
      nl +:+
      yamlMarshal +:+ nl +:+
      nl +:+
      yamlUnmarshal +:+ nl,
      stderr).

(** [makeMarshalingCode] with its lookups, statement by statement:
    [scope] is [pkg.Scope()], and an empty [otypename] stands for no
    override type. *)
Definition makeMarshalingCode_scope (mapKeys : gmap string string -> list string)
    (pkg : Package) (scope : gmap string Object) (typename otypename : string)
    : outcome (string * list string) :=
  do r <~ lookupStructType scope typename ;;
  match r with
  | Error err => Fatal ("can't find " +:+ typename +:+ ": " +:+ err)
  | Value t =>
      do (mtyp, stderr) <~ newMarshalerType t ;;
      do mtyp' <~
        (if bool_decide (otypename ≠ EmptyString) then
           do r' <~ lookupStructType scope otypename ;;
           match r' with
           | Error err =>
               Fatal ("can't find field replacement type " +:+ otypename +:+ ": " +:+ err)
           | Value otyp =>
               match named_underlying otyp with
               | Struct fields _ => loadOverrides ∅ mtyp otypename fields
               | _ => Panic TypeAssertion
               end
           end
         else Ok mtyp) ;;
      writeCode mapKeys pkg mtyp' stderr
  end.

End Driver.

(** ** The visits of [walkNamedTypes] *)

(** The places that [walkNamedTypes] reaches in a type, in the order in
    which it reaches them: a named type, or ([None]) a type that it
    cannot walk. *)
Fixpoint walkOrder (t : type) : list (option TypeName) :=
  match t with
  | Basic _ => []
  | Chan elem => walkOrder elem
  | Map key elem => walkOrder key ++ walkOrder elem
  | Named obj => [Some obj]
  | Pointer elem => walkOrder elem
  | Slice elem => walkOrder elem
  | Struct fields _ =>
      (fix fieldsOrder (fs : list Var) : list (option TypeName) :=
         match fs with
         | [] => []
         | mkVar _ _ ty _ _ :: rest => walkOrder ty ++ fieldsOrder rest
         end) fields
  | Array _ _ | Interface | Signature | Tuple => [None]
  end.

(** The callback run over a list of such places, up to the first
    failure. *)
Fixpoint visitAll {S : Type} (callback : TypeName -> S -> outcome S)
    (places : list (option TypeName)) (s : S) : outcome S :=
  match places with
  | [] => Ok s
  | Some obj :: rest => do s1 <~ callback obj s ;; visitAll callback rest s1
  | None :: _ => Panic CantWalk
  end.

(** The places that [computeImports] reaches in the fields of [mtyp]. *)
Definition fieldVisits (fs : list marshalerField) : list (option TypeName) :=
  flat_map (fun f => walkOrder (typ f) ++ walkOrder (var_type (field f))) fs.

(** Whether a named type belongs to another package than [mtyp.orig]. *)
Definition external (mtyp : marshalerType) (obj : TypeName) : bool :=
  negb (same_pkg (obj_pkg obj) (obj_pkg (named_obj (orig mtyp)))).

(** The keys that [computeImports] stores in [seen]. *)
Definition importKey (name : string) : Prop :=
  name = "json" \/ name = "errors" \/ exists rest, name = "_" +:+ rest.

(** ** A sample library and sample inputs

    An instance of [GoLib] for the examples: each function agrees with
    the Go library on the inputs described at its definition. *)

Module Sample.

Definition lowerByte (c : ascii) : ascii :=
  let n := nat_of_ascii c in
  if (65 <=? n)%nat && (n <=? 90)%nat then ascii_of_nat (n + 32) else c.

Definition upperByte (c : ascii) : ascii :=
  let n := nat_of_ascii c in
  if (97 <=? n)%nat && (n <=? 122)%nat then ascii_of_nat (n - 32) else c.

Fixpoint mapBytes (f : ascii -> ascii) (s : string) : string :=
  match s with
  | EmptyString => EmptyString
  | String c rest => String (f c) (mapBytes f rest)
  end.

(** [strings.ToLower] and [strings.ToUpper] on ASCII strings. *)
Definition toLower : string -> string := mapBytes lowerByte.
Definition toUpper : string -> string := mapBytes upperByte.

(** The scanner of [reflect.StructTag.Lookup], for tags written
    without backslash escapes. *)
Fixpoint skipSpaces (s : string) : string :=
  match s with
  | String c rest => if bool_decide (c = " "%char) then skipSpaces rest else s
  | EmptyString => s
  end.

Definition nameByte (c : ascii) : bool :=
  let n := nat_of_ascii c in
  (32 <? n)%nat && negb (n =? 58)%nat && negb (n =? 34)%nat && negb (n =? 127)%nat.

Fixpoint scanName (s : string) : string * string :=
  match s with
  | String c rest =>
      if nameByte c then let '(n, r) := scanName rest in (String c n, r)
      else (EmptyString, s)
  | EmptyString => (EmptyString, s)
  end.

Fixpoint scanValue (s : string) : option (string * string) :=
  match s with
  | EmptyString => None
  | String c rest =>
      if bool_decide (c = "034"%char) then Some (EmptyString, rest)
      else if bool_decide (c = "\"%char) then None
      else '(v, r) ← scanValue rest; Some (String c v, r)
  end.

Fixpoint lookupTag (fuel : nat) (tag key : string) : string :=
  match fuel with
  | O => EmptyString
  | S fuel' =>
      let '(name, rest) := scanName (skipSpaces tag) in
      if bool_decide (name = EmptyString) then EmptyString
      else
        match rest with
        | String ":" (String "034" quoted) =>
            match scanValue quoted with
            | Some (value, rest') =>
                if bool_decide (key = name) then value
                else lookupTag fuel' rest' key
            | None => EmptyString
            end
        | _ => EmptyString
        end
  end.

Definition structTagGet (tag key : string) : string :=
  lookupTag (S (String.length tag)) tag key.

(** [types.TypeString] on types built from basic and named types with
    pointers, slices, maps and channels. *)
Fixpoint typeText (t : type) (qualifier : Package -> string) : string :=
  match t with
  | Basic name => name
  | Pointer elem => "*" +:+ typeText elem qualifier
  | Slice elem => "[]" +:+ typeText elem qualifier
  | Chan elem => "chan " +:+ typeText elem qualifier
  | Map key elem =>
      "map[" +:+ typeText key qualifier +:+ "]" +:+ typeText elem qualifier
  | Named obj =>
      match obj_pkg obj with
      | Some p =>
          if bool_decide (qualifier p = EmptyString) then obj_name obj
          else qualifier p +:+ "." +:+ obj_name obj
      | None => obj_name obj
      end
  | Array _ _ | Interface | Signature | Struct _ _ | Tuple => "?"
  end.

Definition basicName (t : type) : option string :=
  match t with Basic name => Some name | _ => None end.

Definition namedName (t : type) : option string :=
  match t with Named obj => Some (obj_name obj) | _ => None end.

(** Whether two types of the examples are identical: basic types and
    named types by name, pointer types by their elements. *)
Fixpoint identical (a b : type) : bool :=
  match a, b with
  | Basic x, Basic y => bool_decide (x = y)
  | Named x, Named y => bool_decide (obj_name x = obj_name y)
  | Pointer x, Pointer y => identical x y
  | _, _ => false
  end.

(** The underlying type of the types of the examples: [specialString]
    is declared as [string], [Int] of [math/big] as a struct. *)
Definition underlying (t : type) : type :=
  match t with
  | Named obj =>
      if bool_decide (obj_name obj = "specialString") then Basic "string" else t
  | _ => t
  end.

(** [types.AssignableTo] on the types of the examples: identical
    types. *)
Definition assignable (from to : type) : bool := identical from to.

(** [types.ConvertibleTo] on the types of the examples: assignable
    types, types with identical underlying types, and an integer to a
    string; a string does not convert to an integer, and pointers
    convert only when their base types have identical underlying
    types. *)
Definition convertible (from to : type) : bool :=
  assignable from to
  || identical (underlying from) (underlying to)
  || match from, to with
     | Basic x, Basic y => bool_decide (x = "int") && bool_decide (y = "string")
     | Pointer x, Pointer y => identical (underlying x) (underlying y)
     | _, _ => false
     end.

Definition position (pos : Z) : string := "types.go:" +:+ pretty pos +:+ ":2".

Definition lib : GoLib := {|
  ConvertibleTo := convertible;
  AssignableTo := assignable;
  TypeString := typeText;
  Position := position;
  StructTag_Get := structTagGet;
  ToLower := toLower;
  ToUpper := toUpper
|}.

(** The package under generation and two imported packages that
    declare the same name [big]. *)
Definition mainPkg : Package := {| pkg_id := 1; pkg_name := "main"; pkg_path := "main" |}.
Definition bigPkg : Package := {| pkg_id := 2; pkg_name := "big"; pkg_path := "math/big" |}.
Definition otherBigPkg : Package :=
  {| pkg_id := 3; pkg_name := "big"; pkg_path := "example.org/big" |}.

Definition local (name : string) : type :=
  Named {| obj_pkg := Some mainPkg; obj_name := name |}.
Definition bigInt : type := Named {| obj_pkg := Some bigPkg; obj_name := "Int" |}.
Definition otherBigInt : type :=
  Named {| obj_pkg := Some otherBigPkg; obj_name := "Int" |}.

Definition quoted (key value : string) : string :=
  key +:+ ":" +:+ dquote +:+ value +:+ dquote.

(** [type foo struct { Field string; SpecialField string }] with the
    override [type fooMarshaling struct { SpecialField specialString }]
    of the package documentation. *)
Definition foo : NamedType := {|
  named_obj := {| obj_pkg := Some mainPkg; obj_name := "foo" |};
  named_underlying :=
    Struct [mkVar 10 "Field" (Basic "string") false true;
            mkVar 11 "SpecialField" (Basic "string") false true] []
|}.

Definition fooMarshaling : NamedType := {|
  named_obj := {| obj_pkg := Some mainPkg; obj_name := "fooMarshaling" |};
  named_underlying :=
    Struct [mkVar 20 "SpecialField" (local "specialString") false true] []
|}.

(** An override that replaces the string field by an integer. *)
Definition fooCounts : NamedType := {|
  named_obj := {| obj_pkg := Some mainPkg; obj_name := "fooCounts" |};
  named_underlying := Struct [mkVar 30 "SpecialField" (Basic "int") false true] []
|}.

(** [Item] of the specification, with an unexported and an embedded
    field added. *)
Definition Item : NamedType := {|
  named_obj := {| obj_pkg := Some mainPkg; obj_name := "Item" |};
  named_underlying :=
    Struct [mkVar 40 "ID" (Basic "string") false true;
            mkVar 41 "hidden" (Basic "int") false false;
            mkVar 42 "Label" (Basic "string") false true;
            mkVar 43 "Base" (local "Base") true true;
            mkVar 44 "Weight" (Pointer (Basic "int")) false true]
           [EmptyString; EmptyString; quoted "optional" "true"; EmptyString;
            quoted "json" "wt,omitempty"]
|}.

(** A struct with one field of type [big.Int], and one that also uses
    the second package named [big]. *)
Definition Account : NamedType := {|
  named_obj := {| obj_pkg := Some mainPkg; obj_name := "Account" |};
  named_underlying := Struct [mkVar 50 "Balance" bigInt false true] []
|}.

Definition Ledger : NamedType := {|
  named_obj := {| obj_pkg := Some mainPkg; obj_name := "Ledger" |};
  named_underlying :=
    Struct [mkVar 60 "Balance" bigInt false true;
            mkVar 61 "Limit" (Slice otherBigInt) false true] []
|}.

(** The wire types that [newMarshalerType] builds for [foo], [Item]
    and [Account]. *)
Definition fooJSON : marshalerType := {|
  OrigName := "foo";
  Name := "fooJSON";
  Fields :=
    [{| field := mkVar 10 "Field" (Basic "string") false true;
        typ := Pointer (Basic "string"); tag := EmptyString |};
     {| field := mkVar 11 "SpecialField" (Basic "string") false true;
        typ := Pointer (Basic "string"); tag := EmptyString |}];
  orig := foo
|}.

Definition ItemJSON : marshalerType := {|
  OrigName := "Item";
  Name := "ItemJSON";
  Fields :=
    [{| field := mkVar 40 "ID" (Basic "string") false true;
        typ := Pointer (Basic "string"); tag := EmptyString |};
     {| field := mkVar 42 "Label" (Basic "string") false true;
        typ := Pointer (Basic "string"); tag := quoted "optional" "true" |};
     {| field := mkVar 44 "Weight" (Pointer (Basic "int")) false true;
        typ := Pointer (Basic "int"); tag := quoted "json" "wt,omitempty" |}];
  orig := Item
|}.

Definition AccountJSON : marshalerType := {|
  OrigName := "Account";
  Name := "AccountJSON";
  Fields :=
    [{| field := mkVar 50 "Balance" bigInt false true;
        typ := Pointer bigInt; tag := EmptyString |}];
  orig := Account
|}.

(** The override fields of [fooMarshaling] and [fooCounts], and one
    of a type that does not convert to a string. *)
Definition specialField : Var :=
  mkVar 20 "SpecialField" (local "specialString") false true.
Definition countField : Var := mkVar 30 "SpecialField" (Basic "int") false true.
Definition flagField : Var := mkVar 35 "SpecialField" (Basic "bool") false true.

(** The state of [computeImports] after the two packages that are
    always imported have been added. *)
Definition seeded : importState := {|
  seen := <["errors" := "errors"]> (<["json" := "encoding/json"]> ∅);
  counter := 0;
  names := ∅
|}.

(** Two orders in which the keys of a map can be enumerated. *)
Definition keysUp (m : gmap string string) : list string := (map_to_list m).*1.
Definition keysDown (m : gmap string string) : list string :=
  reverse (map_to_list m).*1.


Definition plainField : Var := mkVar 21 "Field" (local "specialString") false true.

(** A wire field whose [json] key asks for omission, and a wire type
    with a field of type [error]. *)
Definition secretField : marshalerField := {|
  field := mkVar 70 "Secret" (Basic "string") false true;
  typ := Pointer (Basic "string");
  tag := quoted "json" "-"
|}.

Definition errorType : type := Named {| obj_pkg := None; obj_name := "error" |}.

Definition ReportJSON : marshalerType := {|
  OrigName := "Report";
  Name := "ReportJSON";
  Fields :=
    [{| field := mkVar 80 "Cause" errorType false true;
        typ := Pointer errorType; tag := EmptyString |}];
  orig := {| named_obj := {| obj_pkg := Some mainPkg; obj_name := "Report" |};
             named_underlying := Struct [mkVar 80 "Cause" errorType false true] [] |}
|}.

(** A state of [computeImports] in which [_big] and [_big_0] are both
    bound. *)
Definition crowded : importState := {|
  seen := <["_big_0" := "example.org/big_0"]> (<["_big" := "math/big"]> (seen seeded));
  counter := 0;
  names := <[4%N := "_big_0"]> (<[2%N := "_big"]> ∅)
|}.

(** A package scope with the types above, a type that is not a struct
    and an object that is not a type. *)
Definition scope : gmap string Object :=
  <["foo" := ObjTypeName (Some foo)]>
  (<["fooMarshaling" := ObjTypeName (Some fooMarshaling)]>
  (<["fooCounts" := ObjTypeName (Some fooCounts)]>
  (<["specialString" :=
       ObjTypeName (Some {| named_obj := {| obj_pkg := Some mainPkg;
                                            obj_name := "specialString" |};
                            named_underlying := Basic "string" |})]>
  (<["version" := ObjOther]> ∅)))).

End Sample.

(** * Properties *)

(** ** Strings *)

Lemma append_assoc (a b c : string) : (a +:+ b) +:+ c = a +:+ (b +:+ c).
Proof.
  induction a as [|x a IH]; [done|].
  change (String x ((a +:+ b) +:+ c) = String x (a +:+ (b +:+ c))). by rewrite IH.
Qed.

Lemma append_empty_r (a : string) : a +:+ EmptyString = a.
Proof.
  induction a as [|x a IH]; [done|].
  change (String x (a +:+ EmptyString) = String x a). by rewrite IH.
Qed.

Lemma substring_0_0 (s : string) : String.substring 0 0 s = EmptyString.
Proof. by destruct s. Qed.

Lemma HasPrefix_dash (s : string) :
  strings_HasPrefix s "-" = true <-> exists rest, s = "-" +:+ rest.
Proof.
  unfold strings_HasPrefix. split.
  - intros [_ Hs%bool_decide_eq_true]%andb_true_iff.
    destruct s as [|c s]; [done|]. simpl in Hs.
    rewrite substring_0_0 in Hs. injection Hs as ->. by exists s.
  - intros [rest ->]. simpl. rewrite substring_0_0. done.
Qed.

(** [strings.Index] with a one-byte separator finds the end of
    [beforeSeparator]. *)
Lemma index_separator (sep : ascii) (s : string) :
  match String.index 0 (String sep EmptyString) s with
  | Some n => String.substring 0 n s = beforeSeparator sep s
  | None => beforeSeparator sep s = s
  end.
Proof.
  induction s as [|c s IH]; [done|].
  cbn [String.index String.prefix beforeSeparator].
  destruct (Ascii.ascii_dec sep c) as [->|Hne].
  - rewrite bool_decide_eq_true_2 by done.
    assert (String.prefix EmptyString s = true) as -> by by destruct s.
    by rewrite substring_0_0.
  - rewrite bool_decide_eq_false_2 by congruence.
    destruct (String.index 0 (String sep EmptyString) s) as [n|]; simpl.
    + by rewrite IH.
    + by rewrite IH.
Qed.

Lemma cut_at_comma (val : string) :
  (if bool_decide (strings_Index val "," ≠ (-1)%Z)
   then String.substring 0 (Z.to_nat (strings_Index val ",")) val else val)
  = beforeSeparator ","%char val.
Proof.
  unfold strings_Index. pose proof (index_separator ","%char val) as Hi.
  destruct (String.index 0 "," val) as [n|].
  - rewrite bool_decide_eq_true_2 by lia. by rewrite Nat2Z.id.
  - by rewrite bool_decide_eq_false_2 by (intros Hn; by apply Hn).
Qed.

(** ** The conversion synthesizer, optionality and encoded names *)

Section RulesFacts.
Context `{GoLib}.

(** C3: [conversionExpr] follows the rules of the specification: a
    pointer converted to a non-pointer is dereferenced and [from]
    becomes its element type; a non-pointer converted to a pointer has
    its address taken and [from] becomes its pointer type; the result
    is then the expression itself when the adjusted [from] is
    assignable to [to], and an explicit coercion to [to] otherwise. *)
Theorem conversionExpr_rules (mtyp : marshalerType) (names : pkgNames)
    (valueExpr : string) (from to : type) :
  conversionExpr mtyp names valueExpr from to
  = conversionRule mtyp names valueExpr from to.
Proof.
  unfold conversionExpr, conversionRule, normalized.
  destruct from, to; reflexivity.
Qed.

(** C6: a field is optional exactly when the value of its [optional]
    key is ["true"] or ["yes"], or the value of the format's own key
    begins with ["-"]; a key that is absent has the empty value. *)
Theorem isOptional_iff (mf : marshalerField) (format : string) :
  isOptional mf format = true <->
    StructTag_Get (tag mf) "optional" = "true"
    \/ StructTag_Get (tag mf) "optional" = "yes"
    \/ exists rest, StructTag_Get (tag mf) format = "-" +:+ rest.
Proof.
  unfold isOptional. rewrite <- HasPrefix_dash.
  destruct (bool_decide (StructTag_Get (tag mf) "optional" = "true")) eqn:E1;
    [apply bool_decide_eq_true in E1|apply bool_decide_eq_false in E1].
  { simpl. tauto. }
  destruct (bool_decide (StructTag_Get (tag mf) "optional" = "yes")) eqn:E2;
    [apply bool_decide_eq_true in E2|apply bool_decide_eq_false in E2].
  { simpl. tauto. }
  simpl. tauto.
Qed.

(** C7: the encoded name is the text of the format's key before the
    first comma; when that text is empty or ["-"], it is the name of
    the field with [ToLower] applied to its first byte. *)
Theorem encodedName_rule (mf : marshalerField) (format : string) :
  encodedName mf format = encodedNameRule mf format
  /\ (forall c rest,
      uncapitalize (String c rest) = Ok (ToLower (String c EmptyString) +:+ rest)).
Proof.
  split.
  - unfold encodedName, encodedNameRule. cbv zeta. rewrite cut_at_comma.
    set (v := beforeSeparator _ _).
    destruct (decide (v = EmptyString)) as [->|Hv]; [done|].
    destruct (decide (v = "-")) as [->|Hd]; [done|].
    rewrite !bool_decide_eq_false_2; [done|tauto|done|done].
  - done.
Qed.

End RulesFacts.

(** ** The wire type builder *)

Section BuilderFacts.
Context `{GoLib}.

Lemma newMarshalerType_loop_spec (origName : string) (tags : list string)
    (fs : list Var) (i : nat) (acc : list marshalerField) (stderr : list string) :
  newMarshalerType_loop origName tags i fs acc stderr
  = (acc ++ map (wireField tags) (List.filter included (imap (fun j f => (i + j, f)) fs)),
     stderr ++ map (fun e => errorf origName e.2 "Warning: ignoring embedded field")
                   (List.filter warned (imap (fun j f => (i + j, f)) fs))).
Proof.
  revert i acc stderr.
  induction fs as [|f fs IH]; intros i acc stderr.
  - simpl. by rewrite !app_nil_r.
  - cbn [newMarshalerType_loop imap List.filter].
    unfold included at 1, warned at 1. cbn [fst snd].
    rewrite Nat.add_0_r.
    assert (imap ((fun j f0 => (i + j, f0)) ∘ S) fs
            = imap (fun j f0 => (S i + j, f0)) fs) as ->.
    { apply imap_ext. intros j x _. simpl. f_equal. lia. }
    destruct (var_exported f), (var_anonymous f); cbn [negb andb];
      rewrite IH; cbn [map]; unfold wireField at 2; cbn [fst snd];
      by rewrite <- ?app_assoc.
Qed.

Lemma included_fields (tags : list string) (g : nat -> Var -> nat * Var)
    (fs : list Var) :
  (forall i f, (g i f).2 = f) ->
  map field (map (wireField tags) (List.filter included (imap g fs)))
  = List.filter (fun f => var_exported f && negb (var_anonymous f)) fs.
Proof.
  revert g. induction fs as [|f fs IH]; intros g Hg; [done|].
  cbn [imap List.filter]. unfold included at 1. rewrite Hg.
  destruct (var_exported f && negb (var_anonymous f)); cbn [map].
  - unfold wireField at 1. cbn [field]. rewrite Hg. f_equal.
    apply IH. intros i f'. apply Hg.
  - apply IH. intros i f'. apply Hg.
Qed.

Lemma newMarshalerType_struct (obj : TypeName) (fields : list Var)
    (tags : list string) :
  newMarshalerType {| named_obj := obj; named_underlying := Struct fields tags |}
  = Ok ({| OrigName := obj_name obj;
           Name := obj_name obj +:+ "JSON";
           Fields := map (wireField tags)
                         (List.filter included (imap (fun i f => (i, f)) fields));
           orig := {| named_obj := obj; named_underlying := Struct fields tags |} |},
        map (fun e => errorf (obj_name obj) e.2 "Warning: ignoring embedded field")
            (List.filter warned (imap (fun i f => (i, f)) fields))).
Proof.
  unfold newMarshalerType. cbn [named_underlying named_obj].
  by rewrite newMarshalerType_loop_spec.
Qed.

(** C4: the wire type of a struct holds one field for each descriptor
    that is exported and not embedded, in declaration order, with the
    pointer form of the declared type and the tag of the descriptor;
    an exported embedded field is skipped with one warning and an
    unexported field is skipped without one. *)
Theorem newMarshalerType_fields (obj : TypeName) (fields : list Var)
    (tags : list string) :
  let t := {| named_obj := obj; named_underlying := Struct fields tags |} in
  let indexed := imap (fun i f => (i, f)) fields in
  newMarshalerType t
  = Ok ({| OrigName := obj_name obj;
           Name := obj_name obj +:+ "JSON";
           Fields := map (wireField tags) (List.filter included indexed);
           orig := t |},
        map (fun e => errorf (obj_name obj) e.2 "Warning: ignoring embedded field")
            (List.filter warned indexed))
  /\ map field (map (wireField tags) (List.filter included indexed))
     = List.filter (fun f => var_exported f && negb (var_anonymous f)) fields.
Proof.
  intros t indexed. split.
  - apply newMarshalerType_struct.
  - by apply included_fields.
Qed.

End BuilderFacts.

(** ** The override merger *)

Section OverrideFacts.
Context `{GoLib}.

Lemma isPointer_ensurePointer (t : type) : isPointer (ensurePointer t) = true.
Proof. unfold ensurePointer. by destruct t. Qed.

Lemma fieldByName_from_inv (o : nat) (fs : list marshalerField) (n : string)
    (j : nat) (f : marshalerField) (t : type) :
  fieldByName_from o fs n = Some (j, f) ->
  exists k, j = o + k /\ fs !! k = Some f /\ var_name (field f) = n /\
            fieldByName_from o (<[k := set_typ f t]> fs) n = Some (j, set_typ f t).
Proof.
  revert o. induction fs as [|g fs IH]; intros o; [done|].
  cbn [fieldByName_from]. case_bool_decide as Hg.
  - intros [= <- <-]. exists 0. rewrite Nat.add_0_r. repeat split; [done|].
    simpl. by rewrite bool_decide_eq_true_2.
  - intros (k & -> & Hk & Hn & Hins)%IH. exists (S k).
    split; [lia|]. repeat split; [done..|].
    simpl. rewrite bool_decide_eq_false_2 by done.
    by rewrite Hins.
Qed.

Lemma fieldByName_from_other (o k : nat) (fs : list marshalerField)
    (f : marshalerField) (t : type) (n : string) :
  fs !! k = Some f -> var_name (field f) ≠ n ->
  fieldByName_from o (<[k := set_typ f t]> fs) n = fieldByName_from o fs n.
Proof.
  revert o k. induction fs as [|g fs IH]; intros o k Hk Hn; [done|].
  destruct k as [|k].
  - injection Hk as ->. simpl. by rewrite !bool_decide_eq_false_2.
  - simpl. case_bool_decide; [done|]. by apply IH.
Qed.

Lemma fieldByName_overridden (mtyp : marshalerType) (i : nat) (f : marshalerField)
    (of_ : Var) (n : string) :
  fieldByName mtyp (var_name of_) = Some (i, f) ->
  Fields mtyp !! i = Some f /\
  fieldByName (overridden mtyp i f of_) n
  = if decide (n = var_name of_)
    then Some (i, set_typ f (ensurePointer (var_type of_)))
    else fieldByName mtyp n.
Proof.
  unfold fieldByName, overridden. cbn [Fields set_Fields].
  intros (k & Hi & Hk & Hn & Hins)%(fieldByName_from_inv _ _ _ _ _
    (ensurePointer (var_type of_))).
  simpl in Hi. subst i. split; [done|].
  case_decide as Hd.
  - by subst n.
  - apply fieldByName_from_other; [done|congruence].
Qed.

Lemma loadOverrides_step_Ok (names : pkgNames) (mtyp mtyp' : marshalerType)
    (of_ : Var) :
  loadOverrides_step names mtyp of_ = Ok mtyp' <->
  var_anonymous of_ = false /\ var_exported of_ = true /\
  exists i f, fieldByName mtyp (var_name of_) = Some (i, f) /\
              ConvertibleTo (var_type of_) (var_type (field f)) = true /\
              mtyp' = overridden mtyp i f of_.
Proof.
  unfold loadOverrides_step, overridden.
  destruct (var_anonymous of_), (var_exported of_); cbn [orb negb];
    try (split; [done|by intros (? & ? & _)]).
  destruct (fieldByName mtyp (var_name of_)) as [[i f]|];
    [|split; [done|by intros (_ & _ & ? & ? & ? & _)]].
  destruct (ConvertibleTo (var_type of_) (var_type (field f))) eqn:Hc; cbn [negb].
  - split.
    + intros [= <-]. repeat split. by exists i, f.
    + intros (_ & _ & i' & f' & [= <- <-] & _ & ->). done.
  - split; [done|]. intros (_ & _ & i' & f' & [= <- <-] & Hc' & _). congruence.
Qed.

Lemma overrideChecked_overridden (mtyp : marshalerType) (i : nat)
    (f : marshalerField) (of_ o : Var) :
  fieldByName mtyp (var_name of_) = Some (i, f) ->
  overrideChecked mtyp o <-> overrideChecked (overridden mtyp i f of_) o.
Proof.
  intros Hf. unfold overrideChecked.
  destruct (fieldByName_overridden mtyp i f of_ (var_name o) Hf) as [_ ->].
  case_decide as Hd; [|done].
  rewrite Hd, Hf. split.
  - intros (? & ? & i' & f' & [= <- <-] & Hc). repeat split; [done..|].
    eexists _, _. split; [done|]. done.
  - intros (? & ? & i' & f' & [= <- <-] & Hc). repeat split; [done..|].
    eexists _, _. split; [done|]. done.
Qed.

Lemma loadOverrides_loop_ok_iff (names : pkgNames) (ofs : list Var)
    (mtyp : marshalerType) :
  is_ok (loadOverrides_loop names mtyp ofs) = true <-> Forall (overrideChecked mtyp) ofs.
Proof.
  revert mtyp. induction ofs as [|o ofs IH]; intros mtyp.
  - simpl. split; [constructor|done].
  - cbn [loadOverrides_loop]. rewrite Forall_cons.
    destruct (loadOverrides_step names mtyp o) as [m1| |] eqn:Hs; cbn [bind].
    + apply loadOverrides_step_Ok in Hs as (Ha & He & i & f & Hf & Hc & ->).
      rewrite IH. split.
      * intros Hall. split; [repeat split; eauto|].
        eapply Forall_impl; [exact Hall|]. intros x Hx.
        by apply (overrideChecked_overridden mtyp i f o x Hf).
      * intros [_ Hall]. eapply Forall_impl; [exact Hall|]. intros x Hx.
        by apply (overrideChecked_overridden mtyp i f o x Hf).
    + split; [done|]. intros [(Ha & He & i & f & Hf & Hc) _].
      assert (loadOverrides_step names mtyp o = Ok (overridden mtyp i f o)) as Hok.
      { apply loadOverrides_step_Ok. repeat split; eauto. }
      congruence.
    + split; [done|]. intros [(Ha & He & i & f & Hf & Hc) _].
      assert (loadOverrides_step names mtyp o = Ok (overridden mtyp i f o)) as Hok.
      { apply loadOverrides_step_Ok. repeat split; eauto. }
      congruence.
Qed.

Lemma loadOverrides_loop_app (names : pkgNames) (pre post : list Var)
    (mtyp : marshalerType) :
  loadOverrides_loop names mtyp (pre ++ post)
  = do m1 <~ loadOverrides_loop names mtyp pre ;; loadOverrides_loop names m1 post.
Proof.
  revert mtyp. induction pre as [|o pre IH]; intros mtyp; [done|].
  cbn [app loadOverrides_loop].
  destruct (loadOverrides_step names mtyp o); cbn [bind]; [apply IH|done..].
Qed.

Lemma loadOverrides_loop_untouched (names : pkgNames) (ofs : list Var)
    (mtyp mtyp' : marshalerType) (k : nat) (g : marshalerField) :
  loadOverrides_loop names mtyp ofs = Ok mtyp' ->
  Fields mtyp !! k = Some g ->
  var_name (field g) ∉ map var_name ofs ->
  Fields mtyp' !! k = Some g.
Proof.
  revert mtyp. induction ofs as [|o ofs IH]; intros mtyp Hloop Hk Hn.
  - by injection Hloop as <-.
  - cbn [loadOverrides_loop] in Hloop.
    destruct (loadOverrides_step names mtyp o) as [m1| |] eqn:Hs; [|done..].
    cbn [bind] in Hloop.
    apply loadOverrides_step_Ok in Hs as (_ & _ & i & f & Hf & _ & ->).
    cbn [map] in Hn. apply not_elem_of_cons in Hn as [Hno Hn].
    apply (IH _ Hloop); [|done].
    destruct (fieldByName_overridden mtyp i f o (var_name o) Hf) as [Hi _].
    unfold overridden. cbn [Fields set_Fields].
    rewrite list_lookup_insert_ne; [done|]. intros ->.
    rewrite Hi in Hk. injection Hk as <-.
    unfold fieldByName in Hf.
    apply (fieldByName_from_inv _ _ _ _ _ (typ f)) in Hf as (? & _ & _ & Hname & _).
    congruence.
Qed.

Lemma loadOverrides_loop_final (names : pkgNames) (ofs : list Var)
    (mtyp mtyp' : marshalerType) :
  loadOverrides_loop names mtyp ofs = Ok mtyp' ->
  NoDup (map var_name ofs) ->
  Forall (fun of_ => exists i f,
            fieldByName mtyp (var_name of_) = Some (i, f) /\
            Fields mtyp' !! i = Some (set_typ f (ensurePointer (var_type of_)))) ofs.
Proof.
  revert mtyp. induction ofs as [|o ofs IH]; intros mtyp Hloop Hnd; [constructor|].
  cbn [loadOverrides_loop] in Hloop.
  destruct (loadOverrides_step names mtyp o) as [m1| |] eqn:Hs; [|done..].
  cbn [bind] in Hloop.
  apply loadOverrides_step_Ok in Hs as (_ & _ & i & f & Hf & _ & ->).
  cbn [map] in Hnd. apply NoDup_cons in Hnd as [Hno Hnd].
  pose proof (fieldByName_overridden mtyp i f o) as Hupd.
  constructor.
  - exists i, f. split; [done|].
    apply (loadOverrides_loop_untouched names ofs _ _ _ _ Hloop).
    + unfold overridden. cbn [Fields set_Fields].
      destruct (Hupd (var_name o) Hf) as [Hi _].
      apply list_lookup_insert_eq. by eapply lookup_lt_Some.
    + cbn [set_typ field]. unfold fieldByName in Hf.
      apply (fieldByName_from_inv _ _ _ _ _ (typ f)) in Hf as (? & _ & _ & Hname & _).
      by rewrite Hname.
  - specialize (IH _ Hloop Hnd).
    rewrite Forall_forall in IH. rewrite Forall_forall. intros x Hx.
    destruct (IH x Hx) as (j & g & Hg & Hj).
    destruct (Hupd (var_name x) Hf) as [_ Hx'].
    rewrite Hx' in Hg. case_decide as Hd.
    + exfalso. apply Hno. rewrite <- Hd. apply list_elem_of_fmap. by exists x.
    + by exists j, g.
Qed.

Lemma loadOverrides_loop_pointers (names : pkgNames) (ofs : list Var)
    (mtyp mtyp' : marshalerType) :
  loadOverrides_loop names mtyp ofs = Ok mtyp' ->
  Forall (fun mf => isPointer (typ mf) = true) (Fields mtyp) ->
  Forall (fun mf => isPointer (typ mf) = true) (Fields mtyp').
Proof.
  revert mtyp. induction ofs as [|o ofs IH]; intros mtyp Hloop Hall.
  - by injection Hloop as <-.
  - cbn [loadOverrides_loop] in Hloop.
    destruct (loadOverrides_step names mtyp o) as [m1| |] eqn:Hs; [|done..].
    cbn [bind] in Hloop.
    apply loadOverrides_step_Ok in Hs as (_ & _ & i & f & _ & _ & ->).
    apply (IH _ Hloop). unfold overridden. cbn [Fields set_Fields].
    apply Forall_insert; [done|]. apply isPointer_ensurePointer.
Qed.

(** C1: [loadOverrides] succeeds exactly when every field of the
    override type is exported and not embedded, has the name of a
    field of the original type, and has a declared type that
    [ConvertibleTo] accepts towards the declared type of that field
    (one direction, on the types as declared).  On success each
    matched field has the pointer form of the override type as its
    wire type.  A field that fails only the convertibility check ends
    the run with the message that the override type is not
    convertible. *)
Theorem loadOverrides_convertible (names : pkgNames) (mtyp : marshalerType)
    (otypename : string) (otyp : list Var) :
  (is_ok (loadOverrides names mtyp otypename otyp) = true
     <-> Forall (overrideChecked mtyp) otyp)
  /\ (forall mtyp',
       loadOverrides names mtyp otypename otyp = Ok mtyp' ->
       NoDup (map var_name otyp) ->
       Forall (fun of_ => exists i f,
                 fieldByName mtyp (var_name of_) = Some (i, f) /\
                 Fields mtyp' !! i = Some (set_typ f (ensurePointer (var_type of_))))
              otyp)
  /\ (forall pre of_ post m1 i f,
       otyp = pre ++ of_ :: post ->
       loadOverrides names mtyp otypename pre = Ok m1 ->
       var_anonymous of_ = false -> var_exported of_ = true ->
       fieldByName m1 (var_name of_) = Some (i, f) ->
       ConvertibleTo (var_type of_) (var_type (field f)) = false ->
       loadOverrides names mtyp otypename otyp
       = Fatal (Position (var_pos of_) +:+ ": field override type " +:+
                typeString m1 names (var_type of_) +:+ " is not convertible to " +:+
                typeString m1 names (var_type (field f)))).
Proof.
  unfold loadOverrides. split; [apply loadOverrides_loop_ok_iff|]. split.
  - intros mtyp'. apply loadOverrides_loop_final.
  - intros pre of_ post m1 i f -> Hpre Ha He Hf Hc.
    rewrite loadOverrides_loop_app, Hpre. cbn [bind loadOverrides_loop].
    unfold loadOverrides_step. rewrite Ha, He, Hf, Hc. done.
Qed.

(** C10: every field of the wire type has a pointer type, both as
    [newMarshalerType] builds it and after [loadOverrides] has
    replaced field types. *)
Theorem wire_fields_are_pointers (names : pkgNames) (t : NamedType)
    (otyp : option (string * NamedType)) (mtyp : marshalerType)
    (stderr : list string) :
  makeMarshalerType names t otyp = Ok (mtyp, stderr) ->
  Forall (fun mf => isPointer (typ mf) = true) (Fields mtyp).
Proof.
  unfold makeMarshalerType. destruct t as [obj u].
  destruct u as [| | | | | | | | |fields tags|]; try done.
  rewrite newMarshalerType_struct. cbn [bind].
  assert (Forall (fun mf => isPointer (typ mf) = true)
            (map (wireField tags)
                 (List.filter included (imap (fun i f => (i, f)) fields)))) as Hnew.
  { apply Forall_forall. intros mf (e & -> & _)%list_elem_of_fmap.
    apply isPointer_ensurePointer. }
  destruct otyp as [[otypename o]|].
  - destruct (named_underlying o) as [| | | | | | | | |ofields otags|]; try done.
    unfold loadOverrides.
    destruct (loadOverrides_loop _ _ ofields) as [m'| |] eqn:Hloop; try done.
    cbn [bind]. intros [= <- _].
    by apply (loadOverrides_loop_pointers _ _ _ _ Hloop).
  - by intros [= <- _].
Qed.

End OverrideFacts.

(** ** The namespace alias resolver *)

Lemma pkgName_SetName (p : Package) (name : string) (names : pkgNames) :
  pkgName (SetName p name names) p = name.
Proof. unfold pkgName, SetName. by rewrite lookup_insert_eq. Qed.

Lemma marked_name_differs (name : string) : "_" +:+ name ≠ name.
Proof.
  intros Heq. apply (f_equal String.length) in Heq.
  change (S (String.length name) = String.length name) in Heq. lia.
Qed.

Lemma numbered_name_differs (name suffix : string) : "_" +:+ name +:+ suffix ≠ name.
Proof.
  intros Heq. apply (f_equal String.length) in Heq.
  change (S (String.length (name +:+ suffix)) = String.length name) in Heq.
  assert (forall a b, String.length (a +:+ b) = String.length a + String.length b) as Hlen.
  { intros a b. induction a as [|c a IH]; [done|].
    change (S (String.length (a +:+ b)) = S (String.length a + String.length b)).
    by rewrite IH. }
  rewrite Hlen in Heq. lia.
Qed.

(** C2: for a named type of another package, [addNamed] leaves the
    state alone when the current name of the package is bound to its
    own path; in every other case, also when the name is not bound at
    all, the package is renamed: the marker ["_"] is prefixed, and the
    counter is appended only when the prefixed name is already bound.
    The alias becomes the key of the path in [seen]. *)
Theorem addNamed_alias (mtyp : marshalerType) (obj : TypeName) (p : Package)
    (s : importState) :
  obj_pkg obj = Some p ->
  same_pkg (Some p) (obj_pkg (named_obj (orig mtyp))) = false ->
  let name := pkgName (names s) p in
  let marked := "_" +:+ name in
  let numbered := marked +:+ "_" +:+ strconv_Itoa (counter s) in
  (seen_get (seen s) name = pkg_path p -> addNamed mtyp obj s = Ok s)
  /\ (seen_get (seen s) name ≠ pkg_path p ->
      exists s', addNamed mtyp obj s = Ok s'
        /\ seen s' = <[pkgName (names s') p := pkg_path p]> (seen s)
        /\ pkgName (names s') p ≠ name
        /\ (seen_get (seen s) marked = EmptyString ->
            pkgName (names s') p = marked /\ counter s' = counter s)
        /\ (seen_get (seen s) marked ≠ EmptyString ->
            pkgName (names s') p = numbered /\ counter s' = int_incr (counter s))).
Proof.
  intros Hobj Hother name marked numbered.
  unfold addNamed, add. rewrite Hobj, Hother. cbn [negb].
  fold name. split.
  - intros Hbound. by rewrite bool_decide_eq_true_2.
  - intros Hnot. rewrite bool_decide_eq_false_2 by done. fold marked.
    case_bool_decide as Hm.
    + eexists. split; [done|]. cbn [seen names counter].
      rewrite pkgName_SetName. repeat split; try done.
      apply marked_name_differs.
    + eexists. split; [done|]. cbn [seen names counter].
      rewrite pkgName_SetName. fold numbered. repeat split; try done.
      apply numbered_name_differs.
Qed.

(** The import block does not depend on the order in which the keys of
    the map are enumerated. *)
Lemma renderImports_order (m : gmap string string) (keys1 keys2 : list string) :
  MapKeys m keys1 -> MapKeys m keys2 -> renderImports keys1 m = renderImports keys2 m.
Proof.
  unfold MapKeys, renderImports. intros H1 H2.
  assert (merge_sort String.le keys1 = merge_sort String.le keys2) as ->; [|done].
  apply (Sorted_unique String.le).
  - apply Sorted_merge_sort, _.
  - apply Sorted_merge_sort, _.
  - by rewrite !merge_sort_Permutation, H1, H2.
Qed.

Section GeneratorFacts.
Context `{GoLib}.

(** C9: two runs on the same package, type and override type produce
    the same text, with the same aliases and the same order of the
    import declarations, whatever the order in which each run
    enumerates the keys of the map of imports. *)
Theorem makeMarshalingCode_deterministic
    (mapKeys1 mapKeys2 : gmap string string -> list string)
    (pkg : Package) (typ : NamedType) (otyp : option (string * NamedType)) :
  (forall m, MapKeys m (mapKeys1 m)) ->
  (forall m, MapKeys m (mapKeys2 m)) ->
  makeMarshalingCode mapKeys1 pkg typ otyp = makeMarshalingCode mapKeys2 pkg typ otyp.
Proof.
  intros H1 H2. unfold makeMarshalingCode.
  destruct (makeMarshalerType ∅ typ otyp) as [[mtyp stderr]| |]; cbn [bind]; [|done..].
  destruct (computeImports mtyp ∅) as [s| |]; cbn [bind]; [|done..].
  by rewrite (renderImports_order (seen s) (mapKeys1 (seen s)) (mapKeys2 (seen s))).
Qed.

Lemma rangeFields_concat (body : marshalerField -> string)
    (fs : list marshalerField) (out : string) :
  rangeFields body fs out = out +:+ concatAll (map body fs).
Proof.
  revert out. induction fs as [|mf fs IH]; intros out.
  - simpl. by rewrite append_empty_r.
  - cbn [rangeFields map concatAll foldr]. rewrite IH. apply append_assoc.
Qed.

(** C8: both encode methods hold one entry for every field of the
    wire type, in order, whose value is the conversion of the field of
    the original value to the wire type; the entry does not depend on
    the tag of the field, hence not on its being optional. *)
Theorem marshal_methods_convert_every_field (mtyp : marshalerType)
    (names : pkgNames) :
  let entry mf :=
    nl +:+ tab +:+ tab +:+ tab +:+ var_name (field mf) +:+ ": " +:+
    conversionExpr mtyp names ("x." +:+ var_name (field mf))
      (var_type (field mf)) (typ mf) +:+ "," in
  JSONMarshalMethod mtyp names
  = ("// MarshalJSON implements json.Marshaler." +:+ nl +:+
     "func (x *" +:+ OrigName mtyp +:+ ") MarshalJSON() ([]byte, error) {" +:+ nl +:+
     tab +:+ TypeDecl mtyp names +:+ nl +:+ nl +:+
     tab +:+ "return json.Marshal(&" +:+ Name mtyp +:+ "{")
    +:+ concatAll (map entry (Fields mtyp))
    +:+ nl +:+ tab +:+ "})" +:+ nl +:+ "}"
  /\ YAMLMarshalMethod mtyp names
     = ("// MarshalYAML implements yaml.Marshaler" +:+ nl +:+
        "func (x *" +:+ OrigName mtyp +:+ ") MarshalYAML() (interface{}, error) {" +:+ nl +:+
        tab +:+ TypeDecl mtyp names +:+ nl +:+ nl +:+
        tab +:+ "return &" +:+ Name mtyp +:+ "{")
       +:+ concatAll (map entry (Fields mtyp))
       +:+ nl +:+ tab +:+ "}, nil" +:+ nl +:+ "}"
  /\ forall mf tag', entry (set_tag mf tag') = entry mf.
Proof.
  intros entry. unfold JSONMarshalMethod, YAMLMarshalMethod.
  rewrite !rangeFields_concat. repeat split.
  - by rewrite append_assoc.
  - by rewrite append_assoc.
Qed.

Lemma encodedName_ok (mf : marshalerField) (format : string) :
  mf_Name mf ≠ EmptyString -> exists enc, encodedName mf format = Ok enc.
Proof.
  intros Hn. unfold encodedName. cbv zeta.
  case_match; [|by eexists].
  unfold uncapitalize. destruct (mf_Name mf); [done|by eexists].
Qed.

Lemma UnmarshalConversions_loop_spec (mtyp : marshalerType) (names : pkgNames)
    (formatTag : string) (fs : list marshalerField) (encs : list string) (s : string) :
  Forall2 (fun mf enc => encodedName mf formatTag = Ok enc) fs encs ->
  UnmarshalConversions_loop mtyp names formatTag fs s
  = Ok (s +:+ concatAll (zip_with
          (fun mf enc => decodeRule mtyp names formatTag mf enc +:+ nl) fs encs)).
Proof.
  intros Hall. revert s. induction Hall as [|mf enc fs encs Henc _ IH]; intros s.
  - simpl. by rewrite append_empty_r.
  - cbn [UnmarshalConversions_loop zip_with concatAll foldr]. rewrite Henc. cbn [bind].
    rewrite IH. unfold decodeRule.
    destruct (isOptional mf formatTag); by rewrite !append_assoc.
Qed.

(** C5: when every field has a name, [UnmarshalConversions] returns
    the decode logic of the fields, one after the other, and the logic
    of a field has one of two shapes.  An optional field is assigned
    under the guard that the decoded wire field is not nil, and
    nothing is returned otherwise.  A required field returns an error
    with the encoded name of the field, the format in upper case and
    the name of the original type when the decoded wire field is nil,
    and is assigned otherwise. *)
Theorem UnmarshalConversions_shapes (mtyp : marshalerType) (names : pkgNames)
    (formatTag : string) :
  Forall (fun mf => mf_Name mf ≠ EmptyString) (Fields mtyp) ->
  exists encs,
    Forall2 (fun mf enc => encodedName mf formatTag = Ok enc) (Fields mtyp) encs
    /\ UnmarshalConversions mtyp names formatTag
       = Ok (concatAll (zip_with
               (fun mf enc =>
                  (if isOptional mf formatTag then
                     "if dec." +:+ mf_Name mf +:+ " != nil {" +:+
                     nl +:+ tab +:+ tab +:+ tab +:+ tab +:+ tab +:+
                       "v." +:+ mf_Name mf +:+ " = " +:+ ConvertBack mtyp names mf "dec" +:+
                     nl +:+ tab +:+ tab +:+ tab +:+ tab +:+ "}"
                   else
                     "if dec." +:+ mf_Name mf +:+ " == nil {" +:+
                     nl +:+ tab +:+ tab +:+ tab +:+ tab +:+ tab +:+
                       "return errors.New(" +:+ dquote +:+ "missing required field '" +:+
                       enc +:+ "' in " +:+ (ToUpper formatTag +:+ " " +:+ OrigName mtyp) +:+
                       dquote +:+ ")" +:+
                     nl +:+ tab +:+ tab +:+ tab +:+ tab +:+ "}" +:+
                     nl +:+ tab +:+ tab +:+ tab +:+ tab +:+
                       "v." +:+ mf_Name mf +:+ " = " +:+ ConvertBack mtyp names mf "dec")
                  +:+ nl)
               (Fields mtyp) encs)).
Proof.
  intros Hnames. unfold UnmarshalConversions.
  assert (exists encs, Forall2 (fun mf enc => encodedName mf formatTag = Ok enc)
                         (Fields mtyp) encs) as [encs Hencs].
  { induction Hnames as [|mf fs Hmf _ [encs IH]]; [by exists []|].
    destruct (encodedName_ok mf formatTag Hmf) as [enc Henc].
    exists (enc :: encs). by constructor. }
  exists encs. split; [done|].
  by rewrite (UnmarshalConversions_loop_spec _ _ _ _ encs).
Qed.

End GeneratorFacts.

(** ** The properties on the sample inputs *)

Example newMarshalerType_foo :
  @newMarshalerType Sample.lib Sample.foo = Ok (Sample.fooJSON, []).
Proof. vm_compute. reflexivity. Qed.

Example newMarshalerType_Item :
  @newMarshalerType Sample.lib Sample.Item
  = Ok (Sample.ItemJSON, ["types.go:43:2: (Item.Base) Warning: ignoring embedded field"]).
Proof. vm_compute. reflexivity. Qed.

Example newMarshalerType_Account :
  @newMarshalerType Sample.lib Sample.Account = Ok (Sample.AccountJSON, []).
Proof. vm_compute. reflexivity. Qed.

Example computeImports_seeds :
  (do s1 <~ add "json" "encoding/json" None {| seen := ∅; counter := 0; names := ∅ |} ;;
   add "errors" "errors" None s1) = Ok Sample.seeded.
Proof. vm_compute. reflexivity. Qed.

Example encodedName_Item :
  map (fun mf => @encodedName Sample.lib mf "json") (Fields Sample.ItemJSON)
  = [Ok "iD"; Ok "label"; Ok "wt"]
  /\ map (fun mf => @isOptional Sample.lib mf "json") (Fields Sample.ItemJSON)
     = [false; true; false].
Proof. split; vm_compute; reflexivity. Qed.

(** The override of the package documentation is accepted, and an
    override by [bool] ends the run with the message of the
    convertibility check. *)
Lemma loadOverrides_convertible_witness :
  is_ok (@loadOverrides Sample.lib ∅ Sample.fooJSON "fooMarshaling" [Sample.specialField])
  = true
  /\ @loadOverrides Sample.lib ∅ Sample.fooJSON "fooFlags" [Sample.flagField]
     = Fatal "types.go:35:2: field override type bool is not convertible to string".
Proof.
  split.
  - apply (@loadOverrides_convertible Sample.lib ∅ Sample.fooJSON "fooMarshaling"
             [Sample.specialField]).
    repeat constructor. exists 1%nat, (mkField (mkVar 11 "SpecialField" (Basic "string") false true)
                                    (Pointer (Basic "string")) EmptyString).
    split; vm_compute; reflexivity.
  - destruct (@loadOverrides_convertible Sample.lib ∅ Sample.fooJSON "fooFlags"
                [Sample.flagField]) as (_ & _ & Hfatal).
    exact (Hfatal [] Sample.flagField [] Sample.fooJSON 1%nat
             (mkField (mkVar 11 "SpecialField" (Basic "string") false true)
                (Pointer (Basic "string")) EmptyString)
             eq_refl eq_refl eq_refl eq_refl eq_refl eq_refl).
Defined.

(** C1, as the specification states it, fails: the override of a string
    field by an integer is accepted, although a string does not convert
    to an integer and the pointer forms convert in neither direction. *)
Lemma loadOverrides_accepts_one_way :
  @loadOverrides Sample.lib ∅ Sample.fooJSON "fooCounts" [Sample.countField]
  = Ok (overridden Sample.fooJSON 1
          (mkField (mkVar 11 "SpecialField" (Basic "string") false true)
             (Pointer (Basic "string")) EmptyString)
          Sample.countField)
  /\ @ConvertibleTo Sample.lib (Basic "int") (Basic "string") = true
  /\ @ConvertibleTo Sample.lib (Basic "string") (Basic "int") = false
  /\ @convertibleBothWays Sample.lib (Basic "int") (Basic "string") = false.
Proof. repeat split; vm_compute; reflexivity. Qed.

(** The package [math/big] is met while its name is bound to nothing,
    and is renamed all the same. *)
Lemma addNamed_alias_witness :
  exists s',
    addNamed Sample.AccountJSON {| obj_pkg := Some Sample.bigPkg; obj_name := "Int" |}
      Sample.seeded = Ok s'
    /\ pkgName (names s') Sample.bigPkg = "_big"
    /\ counter s' = 0%Z.
Proof.
  destruct (addNamed_alias Sample.AccountJSON
              {| obj_pkg := Some Sample.bigPkg; obj_name := "Int" |}
              Sample.bigPkg Sample.seeded eq_refl eq_refl) as [_ Hrename].
  destruct Hrename as (s' & Hs' & _ & _ & Hmarked & _).
  { vm_compute. discriminate. }
  exists s'. split; [exact Hs'|]. apply Hmarked. vm_compute. reflexivity.
Defined.

(** C2, as the specification states it, fails: [big] is bound to
    nothing when [computeImports] meets [math/big], and the alias is
    [_big]. *)
Lemma computeImports_renames_unbound_name :
  seen Sample.seeded !! "big" = None
  /\ computeImports Sample.AccountJSON ∅
     = Ok {| seen := <["_big" := "math/big"]> (seen Sample.seeded);
             counter := 0;
             names := SetName Sample.bigPkg "_big" ∅ |}
  /\ pkgName (SetName Sample.bigPkg "_big" ∅) Sample.bigPkg ≠ pkg_name Sample.bigPkg.
Proof. repeat split; vm_compute; try reflexivity. discriminate. Qed.

Lemma makeMarshalingCode_deterministic_witness :
  is_ok (@makeMarshalingCode Sample.lib Sample.keysUp Sample.mainPkg Sample.Ledger None)
  = true
  /\ @makeMarshalingCode Sample.lib Sample.keysUp Sample.mainPkg Sample.Ledger None
     = @makeMarshalingCode Sample.lib Sample.keysDown Sample.mainPkg Sample.Ledger None.
Proof.
  split; [vm_compute; reflexivity|].
  apply (@makeMarshalingCode_deterministic Sample.lib).
  - intros m. unfold MapKeys, Sample.keysUp. reflexivity.
  - intros m. unfold MapKeys, Sample.keysDown. apply reverse_Permutation.
Defined.

Lemma UnmarshalConversions_shapes_witness :
  is_ok (@UnmarshalConversions Sample.lib Sample.ItemJSON ∅ "json") = true.
Proof.
  destruct (@UnmarshalConversions_shapes Sample.lib Sample.ItemJSON ∅ "json")
    as (encs & _ & ->).
  - repeat constructor; discriminate.
  - reflexivity.
Defined.

Lemma wire_fields_are_pointers_witness :
  exists mtyp,
    @makeMarshalerType Sample.lib ∅ Sample.foo (Some ("fooMarshaling", Sample.fooMarshaling))
    = Ok (mtyp, [])
    /\ Forall (fun mf => isPointer (typ mf) = true) (Fields mtyp).
Proof.
  eexists. split; [vm_compute; reflexivity|].
  eapply (@wire_fields_are_pointers Sample.lib ∅ Sample.foo
            (Some ("fooMarshaling", Sample.fooMarshaling))).
  vm_compute. reflexivity.
Defined.

(** * Further properties of the code *)

(** ** Building the wire type *)

Section BuilderMore.
Context `{GoLib}.

Lemma indexed_partition (g : nat -> Var -> nat * Var) (fs : list Var) :
  (forall i f, (g i f).2 = f) ->
  length (List.filter included (imap g fs))
  + length (List.filter warned (imap g fs))
  + length (List.filter (fun f => negb (var_exported f)) fs)
  = length fs.
Proof.
  revert g. induction fs as [|f fs IH]; intros g Hg; [done|].
  cbn [imap List.filter]. unfold included at 1, warned at 1. rewrite Hg.
  specialize (IH (g ∘ S) (fun i f' => Hg (S i) f')).
  destruct (var_exported f), (var_anonymous f); cbn [andb negb length]; lia.
Qed.

(** X1: [newMarshalerType] returns for every struct, and accounts for
    each field exactly once: the field is kept, or it is reported as
    embedded, or it is unexported. *)
Theorem newMarshalerType_accounts_for_fields (obj : TypeName) (fields : list Var)
    (tags : list string) :
  exists mtyp stderr,
    newMarshalerType {| named_obj := obj; named_underlying := Struct fields tags |}
    = Ok (mtyp, stderr)
    /\ length (Fields mtyp) + length stderr
       + length (List.filter (fun f => negb (var_exported f)) fields)
       = length fields.
Proof.
  eexists _, _. split; [apply newMarshalerType_struct|].
  cbn [Fields]. rewrite !length_map. by apply indexed_partition.
Qed.

Lemma NoDup_map_filter {A B : Type} (f : A -> B) (P : A -> bool) (l : list A) :
  NoDup (map f l) -> NoDup (map f (List.filter P l)).
Proof.
  induction l as [|a l IH]; [done|].
  cbn [map List.filter]. intros [Ha Hl]%NoDup_cons.
  destruct (P a); [|by apply IH].
  cbn [map]. apply NoDup_cons. split; [|by apply IH].
  intros (x & Hx & Hin)%list_elem_of_fmap. apply Ha.
  apply list_elem_of_fmap. exists x. split; [done|].
  apply list_elem_of_In, filter_In in Hin as [Hin _]. by apply list_elem_of_In.
Qed.

(** X2: when the fields of the struct have distinct names, so have the
    fields of the wire type. *)
Theorem newMarshalerType_distinct_names (obj : TypeName) (fields : list Var)
    (tags : list string) :
  NoDup (map var_name fields) ->
  exists mtyp stderr,
    newMarshalerType {| named_obj := obj; named_underlying := Struct fields tags |}
    = Ok (mtyp, stderr)
    /\ NoDup (map mf_Name (Fields mtyp)).
Proof.
  intros Hnd. eexists _, _. split; [apply newMarshalerType_struct|].
  cbn [Fields]. unfold mf_Name.
  rewrite <- (map_map field var_name), included_fields by done.
  by apply NoDup_map_filter.
Qed.

Lemma fieldByName_from_Some (o : nat) (fs : list marshalerField) (n : string)
    (i : nat) (f : marshalerField) :
  fieldByName_from o fs n = Some (i, f) <->
  exists k, i = o + k /\ fs !! k = Some f /\ mf_Name f = n /\
            forall j g, j < k -> fs !! j = Some g -> mf_Name g ≠ n.
Proof.
  revert o. induction fs as [|g fs IH]; intros o.
  - split; [done|]. by intros (k & _ & Hk & _).
  - cbn [fieldByName_from]. case_bool_decide as Hg.
    + split.
      * intros [= <- <-]. exists 0.
        split; [lia|]. split; [done|]. split; [done|]. intros; lia.
      * intros ([|k] & -> & Hk & Hn & Hfirst).
        -- injection Hk as <-. do 2 f_equal. lia.
        -- exfalso. by apply (Hfirst 0 g); [lia|done|].
    + rewrite IH. split.
      * intros (k & -> & Hk & Hn & Hfirst). exists (S k).
        split; [lia|]. split; [done|]. split; [done|].
        intros [|j] g' Hj Hg'; [by injection Hg' as <-|].
        apply (Hfirst j); [lia|done].
      * intros ([|k] & -> & Hk & Hn & Hfirst).
        -- injection Hk as <-. done.
        -- exists k. split; [lia|]. split; [done|]. split; [done|].
           intros j g' Hj Hg'. apply (Hfirst (S j)); [lia|done].
Qed.

Lemma fieldByName_from_None (o : nat) (fs : list marshalerField) (n : string) :
  fieldByName_from o fs n = None <-> n ∉ map mf_Name fs.
Proof.
  revert o. induction fs as [|g fs IH]; intros o.
  - split; [intros _; apply not_elem_of_nil|done].
  - cbn [fieldByName_from map]. rewrite not_elem_of_cons. case_bool_decide as Hg.
    + split; [done|]. intros [Hne _]. by destruct Hne.
    + rewrite IH. split; [|tauto]. intros Hn. split; [|done].
      intros ->. by apply Hg.
Qed.

(** X3: [fieldByName] returns the first field of the given name, and
    nil exactly when no field has that name. *)
Theorem fieldByName_first (mtyp : marshalerType) (n : string) :
  (forall i f,
     fieldByName mtyp n = Some (i, f) <->
     Fields mtyp !! i = Some f /\ mf_Name f = n /\
     forall j g, j < i -> Fields mtyp !! j = Some g -> mf_Name g ≠ n)
  /\ (fieldByName mtyp n = None <-> n ∉ map mf_Name (Fields mtyp)).
Proof.
  split; [|apply fieldByName_from_None].
  intros i f. unfold fieldByName. rewrite fieldByName_from_Some. split.
  - intros (k & -> & Hrest). exact Hrest.
  - intros Hrest. by exists i.
Qed.

End BuilderMore.

(** ** Merging overrides *)

Section OverrideMore.
Context `{GoLib}.

Lemma fieldByName_lookup (mtyp : marshalerType) (n : string) (i : nat)
    (f : marshalerField) :
  fieldByName mtyp n = Some (i, f) -> Fields mtyp !! i = Some f /\ mf_Name f = n.
Proof.
  unfold fieldByName. intros (k & Hi & Hk & Hn & _)%fieldByName_from_Some.
  simpl in Hi. by subst i.
Qed.

Lemma overridden_shape (mtyp : marshalerType) (i : nat) (f : marshalerField) (o : Var) :
  Fields mtyp !! i = Some f ->
  overridden mtyp i f o = set_Fields mtyp (Fields (overridden mtyp i f o))
  /\ map field (Fields (overridden mtyp i f o)) = map field (Fields mtyp)
  /\ map tag (Fields (overridden mtyp i f o)) = map tag (Fields mtyp).
Proof.
  intros Hi. unfold overridden. cbn [Fields set_Fields]. split; [done|].
  split.
  - change (map field) with (fmap (M:=list) field). rewrite list_fmap_insert.
    apply list_insert_id. by rewrite list_lookup_fmap, Hi.
  - change (map tag) with (fmap (M:=list) tag). rewrite list_fmap_insert.
    apply list_insert_id. by rewrite list_lookup_fmap, Hi.
Qed.

Lemma loadOverrides_loop_shape (names : pkgNames) (ofs : list Var)
    (mtyp mtyp' : marshalerType) :
  loadOverrides_loop names mtyp ofs = Ok mtyp' ->
  mtyp' = set_Fields mtyp (Fields mtyp')
  /\ map field (Fields mtyp') = map field (Fields mtyp)
  /\ map tag (Fields mtyp') = map tag (Fields mtyp).
Proof.
  revert mtyp. induction ofs as [|o ofs IH]; intros mtyp Hloop.
  - injection Hloop as <-. by destruct mtyp.
  - cbn [loadOverrides_loop] in Hloop.
    destruct (loadOverrides_step names mtyp o) as [m1| |] eqn:Hs; [|done..].
    cbn [bind] in Hloop.
    apply loadOverrides_step_Ok in Hs as (_ & _ & i & f & Hf & _ & ->).
    apply fieldByName_lookup in Hf as [Hi _].
    destruct (overridden_shape mtyp i f o Hi) as (Hm & Hfield & Htag).
    destruct (IH _ Hloop) as (Hm' & Hfield' & Htag').
    split; [|split; congruence].
    rewrite Hm'. rewrite Hm. done.
Qed.

Lemma loadOverrides_loop_checked (names : pkgNames) (ofs : list Var)
    (mtyp mtyp' : marshalerType) (o : Var) :
  loadOverrides_loop names mtyp ofs = Ok mtyp' ->
  overrideChecked mtyp o <-> overrideChecked mtyp' o.
Proof.
  revert mtyp. induction ofs as [|x ofs IH]; intros mtyp Hloop.
  - by injection Hloop as <-.
  - cbn [loadOverrides_loop] in Hloop.
    destruct (loadOverrides_step names mtyp x) as [m1| |] eqn:Hs; [|done..].
    cbn [bind] in Hloop.
    apply loadOverrides_step_Ok in Hs as (_ & _ & i & f & Hf & _ & ->).
    rewrite (overrideChecked_overridden mtyp i f x o Hf). by apply IH.
Qed.

Lemma loadOverrides_loop_index (names : pkgNames) (ofs : list Var)
    (mtyp mtyp' : marshalerType) (n : string) :
  loadOverrides_loop names mtyp ofs = Ok mtyp' ->
  fst <$> fieldByName mtyp' n = fst <$> fieldByName mtyp n.
Proof.
  revert mtyp. induction ofs as [|x ofs IH]; intros mtyp Hloop.
  - by injection Hloop as <-.
  - cbn [loadOverrides_loop] in Hloop.
    destruct (loadOverrides_step names mtyp x) as [m1| |] eqn:Hs; [|done..].
    cbn [bind] in Hloop.
    apply loadOverrides_step_Ok in Hs as (_ & _ & i & f & Hf & _ & ->).
    rewrite (IH _ Hloop).
    destruct (fieldByName_overridden mtyp i f x n Hf) as [_ ->].
    case_decide as Hd; [|done]. by rewrite Hd, Hf.
Qed.

Lemma loadOverrides_loop_untouched_index (names : pkgNames) (ofs : list Var)
    (mtyp mtyp' : marshalerType) (k : nat) :
  loadOverrides_loop names mtyp ofs = Ok mtyp' ->
  Forall (fun o => fst <$> fieldByName mtyp (var_name o) ≠ Some k) ofs ->
  Fields mtyp' !! k = Fields mtyp !! k.
Proof.
  revert mtyp. induction ofs as [|x ofs IH]; intros mtyp Hloop Hall.
  - by injection Hloop as <-.
  - cbn [loadOverrides_loop] in Hloop.
    destruct (loadOverrides_step names mtyp x) as [m1| |] eqn:Hs; [|done..].
    cbn [bind] in Hloop.
    apply loadOverrides_step_Ok in Hs as (_ & _ & i & f & Hf & _ & ->).
    apply Forall_cons in Hall as [Hx Hall]. rewrite Hf in Hx. simpl in Hx.
    rewrite (IH _ Hloop).
    + unfold overridden. cbn [Fields set_Fields].
      apply list_lookup_insert_ne. congruence.
    + eapply Forall_impl; [exact Hall|]. intros o Ho.
      destruct (fieldByName_overridden mtyp i f x (var_name o) Hf) as [_ ->].
      case_decide; [simpl; congruence|done].
Qed.

(** X4: a successful [loadOverrides] changes wire types only: the name
    of the type, the fields with their order and their tags stay, and a
    field that no field of the override type names keeps its wire
    type. *)
Theorem loadOverrides_frame (names : pkgNames) (mtyp mtyp' : marshalerType)
    (otypename : string) (otyp : list Var) :
  loadOverrides names mtyp otypename otyp = Ok mtyp' ->
  OrigName mtyp' = OrigName mtyp /\ Name mtyp' = Name mtyp /\ orig mtyp' = orig mtyp
  /\ map field (Fields mtyp') = map field (Fields mtyp)
  /\ map tag (Fields mtyp') = map tag (Fields mtyp)
  /\ forall k g, Fields mtyp !! k = Some g ->
                 mf_Name g ∉ map var_name otyp ->
                 Fields mtyp' !! k = Some g.
Proof.
  unfold loadOverrides. intros Hloop.
  destruct (loadOverrides_loop_shape _ _ _ _ Hloop) as (Hm & Hfield & Htag).
  repeat split; try done; try (by rewrite Hm).
  intros k g Hk Hg. by apply (loadOverrides_loop_untouched names otyp mtyp).
Qed.

(** X5: [loadOverrides] stops at the first field of the override type
    that is not accepted, with a message that starts with the position
    of that field; the fields after it are not looked at. *)
Theorem loadOverrides_first_failure (names : pkgNames) (mtyp m1 : marshalerType)
    (otypename : string) (pre post : list Var) (o : Var) :
  loadOverrides names mtyp otypename pre = Ok m1 ->
  ~ overrideChecked mtyp o ->
  exists rest,
    loadOverrides names mtyp otypename (pre ++ o :: post)
    = Fatal (Position (var_pos o) +:+ rest).
Proof.
  unfold loadOverrides. intros Hpre Hbad.
  rewrite loadOverrides_loop_app, Hpre. cbn [bind loadOverrides_loop].
  rewrite (loadOverrides_loop_checked _ _ _ _ o Hpre) in Hbad.
  unfold overrideChecked in Hbad. unfold loadOverrides_step.
  destruct (var_anonymous o), (var_exported o); cbn [orb negb];
    try (eexists; reflexivity).
  destruct (fieldByName m1 (var_name o)) as [[i f]|]; [|eexists; reflexivity].
  destruct (ConvertibleTo (var_type o) (var_type (field f))) eqn:Hc; cbn [negb].
  - exfalso. apply Hbad. repeat split. by exists i, f.
  - eexists. cbn [bind]. reflexivity.
Qed.

Lemma loadOverrides_loop_matched (names : pkgNames) (ofs : list Var)
    (mtyp mtyp' : marshalerType) (o : Var) (k : nat) (f : marshalerField) :
  loadOverrides_loop names mtyp ofs = Ok mtyp' ->
  NoDup (map var_name ofs) ->
  o ∈ ofs ->
  fieldByName mtyp (var_name o) = Some (k, f) ->
  Fields mtyp' !! k = Some (set_typ f (ensurePointer (var_type o))).
Proof.
  intros Hloop Hnd Ho Hf.
  pose proof (loadOverrides_loop_final names ofs mtyp mtyp' Hloop Hnd) as Hall.
  rewrite Forall_forall in Hall.
  destruct (Hall o Ho) as (i & f' & Hf' & Hi). congruence.
Qed.

Lemma loadOverrides_loop_fields_perm (names : pkgNames) (ofs1 ofs2 : list Var)
    (mtyp m1 m2 : marshalerType) :
  ofs1 ≡ₚ ofs2 ->
  NoDup (map var_name ofs1) ->
  loadOverrides_loop names mtyp ofs1 = Ok m1 ->
  loadOverrides_loop names mtyp ofs2 = Ok m2 ->
  m1 = m2.
Proof.
  intros Hperm Hnd1 H1 H2.
  assert (NoDup (map var_name ofs2)) as Hnd2.
  { change (map var_name) with (fmap (M:=list) var_name) in *. by rewrite <- Hperm. }
  destruct (loadOverrides_loop_shape _ _ _ _ H1) as (-> & _ & _).
  destruct (loadOverrides_loop_shape _ _ _ _ H2) as (-> & _ & _).
  f_equal. apply list_eq. intros k.
  destruct (decide (Exists (fun o => fst <$> fieldByName mtyp (var_name o) = Some k) ofs1))
    as [Hex|Hno].
  - apply Exists_exists in Hex as (o & Ho & Hk).
    destruct (fieldByName mtyp (var_name o)) as [[i f]|] eqn:Hf; [|done].
    simpl in Hk. injection Hk as ->.
    rewrite (loadOverrides_loop_matched names ofs1 mtyp _ o k f H1 Hnd1 Ho Hf).
    symmetry. apply (loadOverrides_loop_matched names ofs2 mtyp _ o k f H2 Hnd2); [|done].
    by rewrite <- Hperm.
  - apply not_Exists_Forall in Hno; [|intros; apply _].
    rewrite (loadOverrides_loop_untouched_index names ofs1 mtyp _ k H1),
            (loadOverrides_loop_untouched_index names ofs2 mtyp _ k H2); [done| |].
    + rewrite <- Hperm. eapply Forall_impl; [exact Hno|]. by intros o Ho.
    + eapply Forall_impl; [exact Hno|]. by intros o Ho.
Qed.

(** X6: the result of [loadOverrides] does not depend on the order of
    the fields of the override type, their names being distinct. *)
Theorem loadOverrides_order (names : pkgNames) (mtyp mtyp' : marshalerType)
    (otypename : string) (otyp otyp' : list Var) :
  otyp ≡ₚ otyp' ->
  NoDup (map var_name otyp) ->
  loadOverrides names mtyp otypename otyp = Ok mtyp' ->
  loadOverrides names mtyp otypename otyp' = Ok mtyp'.
Proof.
  unfold loadOverrides. intros Hperm Hnd Hloop.
  assert (is_ok (loadOverrides_loop names mtyp otyp') = true) as Hok.
  { apply loadOverrides_loop_ok_iff. rewrite <- Hperm.
    apply (proj1 (loadOverrides_loop_ok_iff names otyp mtyp)). by rewrite Hloop. }
  destruct (loadOverrides_loop names mtyp otyp') as [m2| |] eqn:H2; [|done..].
  f_equal. symmetry.
  by apply (loadOverrides_loop_fields_perm names otyp otyp' mtyp).
Qed.

(** X7: merging the same override type a second time changes nothing,
    the names of its fields being distinct. *)
Theorem loadOverrides_twice (names : pkgNames) (mtyp mtyp' : marshalerType)
    (otypename : string) (otyp : list Var) :
  NoDup (map var_name otyp) ->
  loadOverrides names mtyp otypename otyp = Ok mtyp' ->
  loadOverrides names mtyp' otypename otyp = Ok mtyp'.
Proof.
  unfold loadOverrides. intros Hnd Hloop.
  assert (is_ok (loadOverrides_loop names mtyp' otyp) = true) as Hok.
  { apply loadOverrides_loop_ok_iff.
    assert (Forall (overrideChecked mtyp) otyp) as Hall.
    { apply (proj1 (loadOverrides_loop_ok_iff names otyp mtyp)). by rewrite Hloop. }
    eapply Forall_impl; [exact Hall|]. intros o Ho.
    by apply (loadOverrides_loop_checked names otyp mtyp mtyp' o Hloop). }
  destruct (loadOverrides_loop names mtyp' otyp) as [m2| |] eqn:H2; [|done..].
  f_equal.
  destruct (loadOverrides_loop_shape _ _ _ _ H2) as (-> & _ & _).
  destruct mtyp' as [on n fs og]. unfold set_Fields. cbn [OrigName Name orig Fields].
  f_equal. apply list_eq. intros k.
  set (m' := {| OrigName := on; Name := n; Fields := fs; orig := og |}) in *.
  destruct (decide (Exists (fun o => fst <$> fieldByName m' (var_name o) = Some k) otyp))
    as [Hex|Hno].
  - apply Exists_exists in Hex as (o & Ho & Hk).
    destruct (fieldByName m' (var_name o)) as [[i f']|] eqn:Hf'; [|done].
    simpl in Hk. injection Hk as ->.
    rewrite (loadOverrides_loop_matched names otyp m' _ o k f' H2 Hnd Ho Hf').
    pose proof (loadOverrides_loop_index names otyp mtyp m' (var_name o) Hloop) as Hidx.
    rewrite Hf' in Hidx. simpl in Hidx.
    destruct (fieldByName mtyp (var_name o)) as [[i f]|] eqn:Hf; [|done].
    simpl in Hidx. injection Hidx as <-.
    pose proof (loadOverrides_loop_matched names otyp mtyp m' o k f Hloop Hnd Ho Hf) as Hk.
    apply fieldByName_lookup in Hf' as [Hk' _]. cbn [Fields m'] in Hk, Hk'.
    rewrite Hk in Hk'. injection Hk' as <-. by rewrite Hk.
  - apply not_Exists_Forall in Hno; [|intros; apply _].
    apply (loadOverrides_loop_untouched_index names otyp m' _ k H2).
    eapply Forall_impl; [exact Hno|]. by intros o Ho.
Qed.

End OverrideMore.

(** ** Conversions and tags *)

Lemma beforeSeparator_prefix (sep : ascii) (v rest : string) :
  (forall i, String.get i v ≠ Some sep) ->
  rest = EmptyString \/ (exists r, rest = String sep r) ->
  beforeSeparator sep (v +:+ rest) = v.
Proof.
  intros Hv Hrest. induction v as [|c v IH].
  - change (EmptyString +:+ rest) with rest.
    destruct Hrest as [->|[r ->]]; [done|].
    cbn [beforeSeparator]. by rewrite bool_decide_eq_true_2.
  - change (String c v +:+ rest) with (String c (v +:+ rest)).
    cbn [beforeSeparator]. rewrite bool_decide_eq_false_2.
    + rewrite IH; [done|]. intros i. apply (Hv (S i)).
    + intros ->. by apply (Hv 0).
Qed.

Section ConversionMore.
Context `{GoLib}.

(** X8: for a field whose wire type is the pointer form of its declared
    type, as [newMarshalerType] leaves it, and whose types are
    assignable to themselves, no coercion is written: encoding takes
    the address of a field that is not a pointer, decoding dereferences
    it again, and a pointer field is copied as it is. *)
Theorem conversion_without_override (mtyp : marshalerType) (names : pkgNames)
    (mf : marshalerField) (variable : string) :
  typ mf = ensurePointer (var_type (field mf)) ->
  AssignableTo (var_type (field mf)) (var_type (field mf)) = true ->
  AssignableTo (typ mf) (typ mf) = true ->
  Convert mtyp names mf variable
  = (if isPointer (var_type (field mf)) then EmptyString else "&")
    +:+ variable +:+ "." +:+ mf_Name mf
  /\ ConvertBack mtyp names mf variable
     = (if isPointer (var_type (field mf)) then EmptyString else "*")
       +:+ variable +:+ "." +:+ mf_Name mf.
Proof.
  unfold Convert, ConvertBack, conversionExpr, mf_Name.
  intros Htyp Hself Hwire. rewrite Htyp in *. cbv zeta.
  destruct (var_type (field mf)) eqn:Ht; cbn [isPointer ensurePointer negb andb Elem] in *;
    rewrite ?Hself, ?Hwire; done.
Qed.

(** X9: when the value of the format's key is [v], or [v] followed by
    a comma and options, and [v] holds no comma and is neither empty
    nor ["-"], the encoded name is [v]. *)
Theorem encodedName_from_tag (mf : marshalerField) (format v rest : string) :
  StructTag_Get (tag mf) format = v +:+ rest ->
  rest = EmptyString \/ (exists r, rest = "," +:+ r) ->
  (forall i, String.get i v ≠ Some ","%char) ->
  v ≠ EmptyString -> v ≠ "-" ->
  encodedName mf format = Ok v.
Proof.
  intros Hval Hrest Hv Hne Hnd. unfold encodedName. cbv zeta.
  rewrite cut_at_comma, Hval, beforeSeparator_prefix by done.
  by rewrite !bool_decide_eq_false_2.
Qed.

(** X10: a field whose format key has the value ["-"], alone or
    followed by a comma and options, is optional in that format, and
    its encoded name is made from the name of the field. *)
Theorem omitted_field (mf : marshalerField) (format : string) :
  StructTag_Get (tag mf) format = "-"
  \/ (exists r, StructTag_Get (tag mf) format = "-," +:+ r) ->
  isOptional mf format = true
  /\ encodedName mf format = uncapitalize (mf_Name mf).
Proof.
  intros Hval. split.
  - unfold isOptional. destruct (_ || _); [done|].
    apply HasPrefix_dash. destruct Hval as [->|[r ->]]; by eexists.
  - unfold encodedName. cbv zeta. rewrite cut_at_comma.
    assert (beforeSeparator ","%char (StructTag_Get (tag mf) format) = "-") as ->.
    { destruct Hval as [->|[r ->]]; [done|].
      change ("-," +:+ r) with ("-" +:+ String ","%char r).
      apply beforeSeparator_prefix; [|right; by eexists].
      intros [|[|i]]; done. }
    done.
Qed.

End ConversionMore.

(** ** Walking types and collecting imports *)

Lemma type_nested_ind (P : type -> Prop) :
  (forall len elem, P elem -> P (Array len elem)) ->
  (forall name, P (Basic name)) ->
  (forall elem, P elem -> P (Chan elem)) ->
  P Interface ->
  (forall key elem, P key -> P elem -> P (Map key elem)) ->
  (forall obj, P (Named obj)) ->
  (forall elem, P elem -> P (Pointer elem)) ->
  P Signature ->
  (forall elem, P elem -> P (Slice elem)) ->
  (forall fields tags, Forall (fun v => P (var_type v)) fields -> P (Struct fields tags)) ->
  P Tuple ->
  forall t, P t.
Proof.
  intros HArray HBasic HChan HInterface HMap HNamed HPointer HSignature HSlice
    HStruct HTuple.
  fix IH 1. intros [len elem|name|elem| |key elem|obj|elem| |elem|fields tags| ].
  - apply HArray, IH.
  - apply HBasic.
  - apply HChan, IH.
  - apply HInterface.
  - apply HMap; apply IH.
  - apply HNamed.
  - apply HPointer, IH.
  - apply HSignature.
  - apply HSlice, IH.
  - apply HStruct. induction fields as [|[p n ty a e] fields IHfields].
    + constructor.
    + constructor; [apply IH|apply IHfields].
  - apply HTuple.
Qed.

Lemma visitAll_app {S : Type} (callback : TypeName -> S -> outcome S)
    (l1 l2 : list (option TypeName)) (s : S) :
  visitAll callback (l1 ++ l2) s
  = do s1 <~ visitAll callback l1 s ;; visitAll callback l2 s1.
Proof.
  revert s. induction l1 as [|[obj|] l1 IH]; intros s; [done| |done].
  cbn [app visitAll]. destruct (callback obj s); cbn [bind]; [apply IH|done..].
Qed.

Lemma walk_visits {S : Type} (callback : TypeName -> S -> outcome S) (t : type) :
  forall s, walkNamedTypes t callback s = visitAll callback (walkOrder t) s.
Proof.
  induction t as [len elem IH|name|elem IH| |key elem IHk IHe|obj|elem IH| |elem IH
                 |fields tags IH| ] using type_nested_ind; intros s.
  - done.
  - done.
  - apply IH.
  - done.
  - cbn [walkNamedTypes walkOrder]. rewrite visitAll_app, IHk.
    destruct (visitAll callback (walkOrder key) s); cbn [bind]; [apply IHe|done..].
  - cbn [walkNamedTypes walkOrder visitAll]. by destruct (callback obj s).
  - apply IH.
  - done.
  - apply IH.
  - cbn [walkNamedTypes walkOrder]. revert s.
    induction IH as [|[p n ty a e] fields Hty _ IHfields]; intros s; [done|].
    rewrite visitAll_app. cbn [var_type] in Hty. rewrite Hty.
    destruct (visitAll callback (walkOrder ty) s); cbn [bind]; [apply IHfields|done..].
  - done.
Qed.

Lemma computeImports_loop_visits (mtyp : marshalerType) (fs : list marshalerField)
    (s : importState) :
  computeImports_loop mtyp fs s = visitAll (addNamed mtyp) (fieldVisits fs) s.
Proof.
  revert s. induction fs as [|f fs IH]; intros s; [done|].
  cbn [computeImports_loop fieldVisits flat_map].
  rewrite <- app_assoc, visitAll_app, walk_visits.
  destruct (visitAll (addNamed mtyp) (walkOrder (typ f)) s) as [s1| |]; cbn [bind];
    [|done..].
  rewrite visitAll_app, walk_visits.
  destruct (visitAll (addNamed mtyp) (walkOrder (var_type (field f))) s1);
    cbn [bind]; [apply IH|done..].
Qed.

Lemma computeImports_visits (mtyp : marshalerType) (names0 : pkgNames) :
  computeImports mtyp names0
  = visitAll (addNamed mtyp) (fieldVisits (Fields mtyp))
      {| seen := <["errors" := "errors"]> (<["json" := "encoding/json"]> ∅);
         counter := 0; names := names0 |}.
Proof. unfold computeImports. by rewrite <- computeImports_loop_visits. Qed.

(** X11: [walkNamedTypes] runs the callback on the named types of a
    type from left to right, through pointers, slices, channels, maps
    and struct fields, and panics at the first array, interface,
    function or tuple type it reaches; [computeImports] does so for the
    wire type and then the declared type of each field, in the order of
    the fields, after the two fixed imports. *)
Theorem walkNamedTypes_order (mtyp : marshalerType) (names0 : pkgNames) :
  (forall (S : Type) (callback : TypeName -> S -> outcome S) (t : type) (s : S),
     walkNamedTypes t callback s = visitAll callback (walkOrder t) s)
  /\ computeImports mtyp names0
     = visitAll (addNamed mtyp)
         (flat_map (fun f => walkOrder (typ f) ++ walkOrder (var_type (field f)))
                   (Fields mtyp))
         {| seen := <["errors" := "errors"]> (<["json" := "encoding/json"]> ∅);
            counter := 0; names := names0 |}.
Proof.
  split; [intros S callback t s; apply walk_visits|apply computeImports_visits].
Qed.

Lemma visitAll_invariant {S : Type} (callback : TypeName -> S -> outcome S)
    (I : S -> Prop) (places : list (option TypeName)) :
  (forall obj s s', callback obj s = Ok s' -> I s -> I s') ->
  forall s s', visitAll callback places s = Ok s' -> I s -> I s'.
Proof.
  intros Hstep. induction places as [|[obj|] places IH]; intros s s' Hrun Hs.
  - by injection Hrun as <-.
  - cbn [visitAll] in Hrun. destruct (callback obj s) as [s1| |] eqn:Hcb; [|done..].
    cbn [bind] in Hrun. apply (IH s1 s' Hrun). by apply (Hstep obj s).
  - done.
Qed.

Lemma visitAll_places {S : Type} (callback : TypeName -> S -> outcome S)
    (places : list (option TypeName)) (s s' : S) :
  visitAll callback places s = Ok s' ->
  Forall (fun place => exists obj s1 s2, place = Some obj /\ callback obj s1 = Ok s2)
         places.
Proof.
  revert s. induction places as [|[obj|] places IH]; intros s Hrun; [constructor| |done].
  cbn [visitAll] in Hrun. destruct (callback obj s) as [s1| |] eqn:Hcb; [|done..].
  cbn [bind] in Hrun. constructor; [by exists obj, s, s1|by apply (IH s1)].
Qed.

Lemma visitAll_not_fatal {S : Type} (callback : TypeName -> S -> outcome S)
    (places : list (option TypeName)) :
  (forall obj s msg, callback obj s ≠ Fatal msg) ->
  forall s msg, visitAll callback places s ≠ Fatal msg.
Proof.
  intros Hcb. induction places as [|[obj|] places IH]; intros s msg; [done| |done].
  cbn [visitAll]. destruct (callback obj s) as [s1| |] eqn:Hs; cbn [bind].
  - apply IH.
  - by destruct (Hcb obj s msg0).
  - done.
Qed.

(** What [addNamed] does to the state, case by case. *)
Lemma addNamed_Ok (mtyp : marshalerType) (obj : TypeName) (s s' : importState) :
  addNamed mtyp obj s = Ok s' ->
  s' = s
  \/ exists p alias,
       obj_pkg obj = Some p /\ external mtyp obj = true
       /\ seen_get (seen s) (pkgName (names s) p) ≠ pkg_path p
       /\ (exists rest, alias = "_" +:+ rest)
       /\ seen s' = <[alias := pkg_path p]> (seen s)
       /\ names s' !! pkg_id p = Some alias
       /\ (forall id, id ≠ pkg_id p -> names s' !! id = names s !! id).
Proof.
  unfold addNamed, external.
  destruct (negb (same_pkg _ _)) eqn:Hext; [|intros [= <-]; by left].
  destruct (obj_pkg obj) as [p|]; [|done]. unfold add.
  case_bool_decide as Hbound; [intros [= <-]; by left|].
  case_bool_decide as Hfree; intros [= <-]; right;
    eexists p, _; cbn [seen names counter]; unfold SetName;
    (split; [done|]); (split; [done|]); (split; [done|]);
    (split; [by eexists|]); (split; [done|]);
    (split; [by rewrite lookup_insert_eq|]);
    intros id Hid; by rewrite ?lookup_insert_ne.
Qed.

Lemma addNamed_not_fatal (mtyp : marshalerType) (obj : TypeName) (s : importState)
    (msg : string) :
  addNamed mtyp obj s ≠ Fatal msg.
Proof.
  unfold addNamed, add. repeat (case_match; try done).
Qed.

Lemma seen_get_insert (m : gmap string string) (k v : string) :
  seen_get (<[k := v]> m) k = v.
Proof. unfold seen_get. by rewrite lookup_insert_eq. Qed.

(** X12: in the map that [computeImports] returns, [json] and [errors]
    are bound to the two packages that are always imported, and every
    other key begins with the marker. *)
Theorem computeImports_keys (mtyp : marshalerType) (names0 : pkgNames)
    (s : importState) :
  computeImports mtyp names0 = Ok s ->
  seen s !! "json" = Some "encoding/json"
  /\ seen s !! "errors" = Some "errors"
  /\ forall name, is_Some (seen s !! name) -> importKey name.
Proof.
  rewrite computeImports_visits. intros Hrun.
  eapply (visitAll_invariant (addNamed mtyp)
            (fun s => seen s !! "json" = Some "encoding/json"
                      /\ seen s !! "errors" = Some "errors"
                      /\ forall name, is_Some (seen s !! name) -> importKey name));
    [|exact Hrun|].
  - intros obj s0 s1 Hadd (Hjson & Herrors & Hkeys).
    apply addNamed_Ok in Hadd as [->|(p & alias & _ & _ & _ & [rest ->] & Hseen & _)];
      [done|].
    rewrite Hseen. split; [by rewrite lookup_insert_ne|].
    split; [by rewrite lookup_insert_ne|].
    intros name. destruct (decide (name = "_" +:+ rest)) as [->|Hne].
    + intros _. right. right. by eexists.
    + rewrite lookup_insert_ne by done. apply Hkeys.
  - cbn [seen]. split; [done|]. split; [done|].
    intros name. destruct (decide (name = "errors")) as [->|Hne1]; [by right; left|].
    rewrite lookup_insert_ne by done.
    destruct (decide (name = "json")) as [->|Hne2]; [by left|].
    rewrite lookup_insert_ne by done. rewrite lookup_empty. by intros [? ?].
Qed.

(** X13: [computeImports] never renames the package of the original
    type, and a renamed package has a name that begins with the
    marker. *)
Theorem computeImports_renames (mtyp : marshalerType) (names0 : pkgNames)
    (s : importState) :
  computeImports mtyp names0 = Ok s ->
  (forall p, same_pkg (Some p) (obj_pkg (named_obj (orig mtyp))) = true ->
             pkgName (names s) p = pkgName names0 p)
  /\ (forall id, names s !! id = names0 !! id
                 \/ exists rest, names s !! id = Some ("_" +:+ rest)).
Proof.
  rewrite computeImports_visits. intros Hrun.
  eapply (visitAll_invariant (addNamed mtyp)
            (fun s =>
               (forall p, same_pkg (Some p) (obj_pkg (named_obj (orig mtyp))) = true ->
                          pkgName (names s) p = pkgName names0 p)
               /\ (forall id, names s !! id = names0 !! id
                              \/ exists rest, names s !! id = Some ("_" +:+ rest))));
    [|exact Hrun|].
  - intros obj s0 s1 Hadd [Hown Hmark].
    apply addNamed_Ok in Hadd
      as [->|(p & alias & Hp & Hext & _ & [rest ->] & _ & Halias & Hother)]; [done|].
    split.
    + intros q Hq. rewrite <- (Hown q Hq). unfold pkgName. rewrite Hother; [done|].
      intros Hid. unfold external in Hext. rewrite Hp in Hext.
      destruct (obj_pkg (named_obj (orig mtyp))) as [o|]; [|done].
      cbn [same_pkg] in Hext, Hq. apply bool_decide_eq_true in Hq.
      apply negb_true_iff, bool_decide_eq_false in Hext. congruence.
    + intros id. destruct (decide (id = pkg_id p)) as [->|Hid].
      * right. by exists rest.
      * rewrite Hother by done. apply Hmark.
  - cbn [names]. split; [done|]. intros id. by left.
Qed.

(** X14: a named type that has been visited is visited again without
    any effect. *)
Theorem addNamed_twice (mtyp : marshalerType) (obj : TypeName) (s s' : importState) :
  addNamed mtyp obj s = Ok s' -> addNamed mtyp obj s' = Ok s'.
Proof.
  unfold addNamed.
  destruct (negb (same_pkg _ _)); [|by intros [= <-]].
  destruct (obj_pkg obj) as [p|]; [|done]. unfold add.
  case_bool_decide as Hbound.
  - intros [= <-]. by rewrite bool_decide_eq_true_2.
  - case_bool_decide as Hfree; intros [= <-]; cbn [seen names counter];
      rewrite pkgName_SetName, seen_get_insert; by rewrite bool_decide_eq_true_2.
Qed.

(** X15: [computeImports] panics when a field mentions an array, an
    interface, a function or a tuple type, and when it mentions a named
    type without a package, such as [error]. *)
Theorem computeImports_panics (mtyp : marshalerType) (names0 : pkgNames) :
  None ∈ fieldVisits (Fields mtyp)
  \/ (exists obj, Some obj ∈ fieldVisits (Fields mtyp)
                  /\ obj_pkg obj = None /\ external mtyp obj = true) ->
  exists why, computeImports mtyp names0 = Panic why.
Proof.
  intros Hbad. rewrite computeImports_visits.
  destruct (visitAll _ _ _) as [s| |why] eqn:Hrun.
  - exfalso. apply visitAll_places in Hrun. rewrite Forall_forall in Hrun.
    destruct Hbad as [Hnone|(obj & Hin & Hpkg & Hext)].
    + by destruct (Hrun _ Hnone) as (? & ? & ? & ? & _).
    + destruct (Hrun _ Hin) as (obj' & s1 & s2 & [= <-] & Hadd).
      unfold addNamed, external in *. by rewrite Hext, Hpkg in Hadd.
  - exfalso. by apply (visitAll_not_fatal (addNamed mtyp) _ (addNamed_not_fatal mtyp)
                         _ _ Hrun).
  - by exists why.
Qed.




Section GenerationMore.
Context `{GoLib}.






End GenerationMore.

(** ** Lookups *)

(** X19: [lookupStructType] fails with ["no such identifier"] for a
    name that is not in the scope, with ["not a type"] for an object
    that is not a type name, and with ["not a struct type"] for a named
    type whose underlying type is not a struct; it fails in no other
    case. *)
Theorem lookupStructType_errors (scope : gmap string Object) (name err : string) :
  lookupStructType scope name = Ok (Error err) <->
  (scope !! name = None /\ err = "no such identifier")
  \/ (scope !! name = Some ObjOther /\ err = "not a type")
  \/ (exists t, scope !! name = Some (ObjTypeName (Some t))
                /\ (forall fields tags, named_underlying t ≠ Struct fields tags)
                /\ err = "not a struct type").
Proof.
  unfold lookupStructType, lookupType.
  destruct (scope !! name) as [[[t|]|]|] eqn:Hs; cbn [bind].
  - assert ((exists fields tags, named_underlying t = Struct fields tags)
            \/ (forall fields tags, named_underlying t ≠ Struct fields tags)) as Hcase.
    { destruct (named_underlying t); (by left; eexists _, _) || (by right). }
    destruct Hcase as [(fields & tags & Hu)|Hns].
    + rewrite Hu. split; [done|].
      intros [[? _]|[[? _]|(t' & [= <-] & Hns & _)]]; try done.
      by destruct (Hns fields tags).
    + assert (match named_underlying t with
              | Struct _ _ => Ok (Value t)
              | _ => Ok (Error "not a struct type")
              end = Ok (Error "not a struct type")) as ->.
      { destruct (named_underlying t) eqn:Hu; try done. by destruct (Hns fields tags). }
      split.
      * intros [= <-]. right. right. by exists t.
      * intros [[? _]|[[? _]|(t' & _ & _ & ->)]]; done.
  - split; [done|]. by intros [[? _]|[[? _]|(t' & ? & _)]].
  - split; [intros [= <-]; right; by left|].
    by intros [[? _]|[[_ ->]|(t' & ? & _)]].
  - split; [intros [= <-]; by left|].
    by intros [[_ ->]|[[? _]|(t' & ? & _)]].
Qed.

Section LookupMore.
Context `{GoLib}.

(** X20: what [lookupStructType] returns is the named type that the
    scope binds to the name, its underlying type is a struct, and
    [newMarshalerType] builds a wire type from it without a panic. *)
Theorem lookupStructType_struct (scope : gmap string Object) (name : string)
    (t : NamedType) :
  lookupStructType scope name = Ok (Value t) ->
  scope !! name = Some (ObjTypeName (Some t))
  /\ (exists fields tags, named_underlying t = Struct fields tags)
  /\ is_ok (newMarshalerType t) = true.
Proof.
  unfold lookupStructType, lookupType.
  destruct (scope !! name) as [[[t'|]|]|]; cbn [bind]; try done.
  destruct (named_underlying t') eqn:Hu; try done.
  intros [= <-]. split; [done|]. split; [by eexists _, _|].
  destruct t' as [obj u]. cbn [named_underlying] in Hu. subst u.
  by rewrite newMarshalerType_struct.
Qed.

(** X21: with its lookups, the generator ends with the fatal message
    that the type cannot be found when the type name does not denote a
    struct type, whatever the override name; when both names are found,
    it does what it does on the types found. *)
Theorem makeMarshalingCode_scope_lookups
    (mapKeys : gmap string string -> list string) (pkg : Package)
    (scope : gmap string Object) (typename otypename : string) :
  (forall err, lookupStructType scope typename = Ok (Error err) ->
     makeMarshalingCode_scope mapKeys pkg scope typename otypename
     = Fatal ("can't find " +:+ typename +:+ ": " +:+ err))
  /\ (forall t, lookupStructType scope typename = Ok (Value t) ->
      otypename = EmptyString ->
      makeMarshalingCode_scope mapKeys pkg scope typename otypename
      = makeMarshalingCode mapKeys pkg t None)
  /\ (forall t err, lookupStructType scope typename = Ok (Value t) ->
      otypename ≠ EmptyString ->
      lookupStructType scope otypename = Ok (Error err) ->
      makeMarshalingCode_scope mapKeys pkg scope typename otypename
      = Fatal ("can't find field replacement type " +:+ otypename +:+ ": " +:+ err))
  /\ (forall t o, lookupStructType scope typename = Ok (Value t) ->
      otypename ≠ EmptyString ->
      lookupStructType scope otypename = Ok (Value o) ->
      makeMarshalingCode_scope mapKeys pkg scope typename otypename
      = makeMarshalingCode mapKeys pkg t (Some (otypename, o))).
Proof.
  unfold makeMarshalingCode_scope, makeMarshalingCode, makeMarshalerType, writeCode.
  repeat split.
  - by intros err ->.
  - intros t Ht ->. rewrite Ht. cbn [bind].
    destruct (newMarshalerType t) as [[mtyp stderr]| |]; cbn [bind]; done.
  - intros t err Ht Hne Ho. rewrite Ht. cbn [bind].
    assert (exists fields tags, named_underlying t = Struct fields tags)
      as (fields & tags & Hu).
    { unfold lookupStructType in Ht. destruct (lookupType scope typename) as [[t'|]| |];
        cbn [bind] in Ht; try done.
      destruct (named_underlying t') eqn:Hu; try done. injection Ht as <-.
      by eexists _, _. }
    destruct t as [obj u]. cbn [named_underlying] in Hu. subst u.
    rewrite newMarshalerType_struct. cbn [bind].
    rewrite bool_decide_eq_true_2 by done. by rewrite Ho.
  - intros t o Ht Hne Ho. rewrite Ht. cbn [bind].
    destruct (newMarshalerType t) as [[mtyp stderr]| |]; cbn [bind]; [|done..].
    rewrite bool_decide_eq_true_2 by done. rewrite Ho. cbn [bind].
    destruct (named_underlying o); cbn [bind]; try done.
    destruct (loadOverrides ∅ mtyp otypename fields); cbn [bind]; done.
Qed.

End LookupMore.

(** ** The declaration of the wire type and the import block *)

Section DeclMore.
Context `{GoLib}.

(** X17: the declaration of the wire type names the type and holds one
    line for each field, in order, with the name of the field, its wire
    type and its tag between backquotes; a field without a tag has
    none. *)
Theorem TypeDecl_lines (mtyp : marshalerType) (names : pkgNames) :
  TypeDecl mtyp names
  = "type " +:+ Name mtyp +:+ " struct{"
    +:+ concatAll
          (map (fun mf =>
                  nl +:+ tab +:+ tab +:+ tab +:+ var_name (field mf) +:+ " " +:+
                  typeString mtyp names (typ mf) +:+ " " +:+
                  (if bool_decide (tag mf = EmptyString) then EmptyString
                   else "`" +:+ tag mf +:+ "`"))
               (Fields mtyp))
    +:+ nl +:+ tab +:+ "}".
Proof.
  unfold TypeDecl. by rewrite rangeFields_concat, !append_assoc.
Qed.

End DeclMore.

(** X16: the import block holds one line for each key of the map, each
    key once, in the order of the strings, with the path bound to the
    key between quotes. *)
Theorem renderImports_lines (m : gmap string string) (keys : list string) :
  MapKeys m keys ->
  exists sorted,
    sorted ≡ₚ (map_to_list m).*1
    /\ NoDup sorted
    /\ Sorted String.le sorted
    /\ Forall2 (fun name line =>
                  exists path, m !! name = Some path
                    /\ line = nl +:+ tab +:+ name +:+ " " +:+ dquote +:+ path +:+ dquote)
               sorted
               (map (fun name => nl +:+ tab +:+ name +:+ " " +:+ dquote +:+
                                 seen_get m name +:+ dquote) sorted)
    /\ renderImports keys m
       = "import (" +:+
         concatAll (map (fun name => nl +:+ tab +:+ name +:+ " " +:+ dquote +:+
                                     seen_get m name +:+ dquote) sorted)
         +:+ nl +:+ ")".
Proof.
  unfold MapKeys. intros Hkeys. exists (merge_sort String.le keys).
  assert (merge_sort String.le keys ≡ₚ (map_to_list m).*1) as Hperm.
  { by rewrite merge_sort_Permutation. }
  split; [done|]. split; [|split; [|split]].
  - rewrite Hperm. apply NoDup_fst_map_to_list.
  - apply Sorted_merge_sort, _.
  - apply Forall2_fmap_r, Forall_Forall2_diag, Forall_forall. intros name Hin.
    rewrite Hperm in Hin. apply list_elem_of_fmap in Hin as ([k v] & -> & Hkv).
    apply elem_of_map_to_list in Hkv. exists v. split; [done|].
    unfold seen_get. cbn [fst]. by rewrite Hkv.
  - done.
Qed.

(** X23: when the marked name of a package is taken, the numbered
    alias is stored without a look at the map: a path that was bound
    to that alias is replaced, and the map gets no new key. *)
Theorem add_numbered_alias_unchecked (name path q : string) (p : Package)
    (s : importState) :
  seen_get (seen s) name ≠ path ->
  seen_get (seen s) ("_" +:+ name) ≠ EmptyString ->
  seen s !! ("_" +:+ name +:+ "_" +:+ strconv_Itoa (counter s)) = Some q ->
  exists s',
    add name path (Some p) s = Ok s'
    /\ seen s' !! ("_" +:+ name +:+ "_" +:+ strconv_Itoa (counter s)) = Some path
    /\ dom (seen s') = dom (seen s)
    /\ pkgName (names s') p = "_" +:+ name +:+ "_" +:+ strconv_Itoa (counter s).
Proof.
  intros Hnew Htaken Hbound. unfold add.
  rewrite bool_decide_eq_false_2 by done.
  rewrite bool_decide_eq_false_2 by done.
  eexists. split; [done|]. cbn [seen names].
  split; [by rewrite lookup_insert_eq|]. split.
  - by apply dom_insert_lookup_L.
  - apply pkgName_SetName.
Qed.

(** ** The further properties on the sample inputs *)

Lemma newMarshalerType_distinct_names_witness :
  exists mtyp stderr,
    @newMarshalerType Sample.lib Sample.Item = Ok (mtyp, stderr)
    /\ NoDup (map mf_Name (Fields mtyp)).
Proof.
  apply (@newMarshalerType_distinct_names Sample.lib).
  apply (bool_decide_unpack _). vm_compute. exact I.
Defined.

Lemma loadOverrides_frame_witness :
  exists mtyp',
    @loadOverrides Sample.lib ∅ Sample.fooJSON "fooMarshaling" [Sample.specialField]
    = Ok mtyp'
    /\ Fields mtyp' !! 0%nat = Fields Sample.fooJSON !! 0%nat.
Proof.
  eexists. split; [vm_compute; reflexivity|].
  destruct (@loadOverrides_frame Sample.lib ∅ Sample.fooJSON _ "fooMarshaling"
              [Sample.specialField] eq_refl) as (_ & _ & _ & _ & _ & Hkeep).
  apply Hkeep; [reflexivity|]. apply (bool_decide_unpack _). vm_compute. exact I.
Defined.

Lemma loadOverrides_first_failure_witness :
  exists rest,
    @loadOverrides Sample.lib ∅ Sample.fooJSON "fooMixed"
      ([Sample.specialField] ++ Sample.flagField :: [Sample.plainField])
    = Fatal ("types.go:35:2" +:+ rest).
Proof.
  eapply (@loadOverrides_first_failure Sample.lib ∅ Sample.fooJSON).
  - vm_compute. reflexivity.
  - intros (_ & _ & i & f & Hf & Hc). vm_compute in Hf. injection Hf as <- <-.
    vm_compute in Hc. discriminate.
Defined.

Lemma loadOverrides_order_witness :
  exists mtyp',
    @loadOverrides Sample.lib ∅ Sample.fooJSON "fooBoth"
      [Sample.plainField; Sample.specialField] = Ok mtyp'
    /\ @loadOverrides Sample.lib ∅ Sample.fooJSON "fooBoth"
         [Sample.specialField; Sample.plainField] = Ok mtyp'.
Proof.
  eexists. split; [vm_compute; reflexivity|].
  eapply (@loadOverrides_order Sample.lib ∅ Sample.fooJSON _ "fooBoth"
            [Sample.plainField; Sample.specialField]).
  - apply Permutation_swap.
  - apply (bool_decide_unpack _). vm_compute. exact I.
  - vm_compute. reflexivity.
Defined.

Lemma loadOverrides_twice_witness :
  exists mtyp',
    @loadOverrides Sample.lib ∅ Sample.fooJSON "fooMarshaling" [Sample.specialField]
    = Ok mtyp'
    /\ @loadOverrides Sample.lib ∅ mtyp' "fooMarshaling" [Sample.specialField]
       = Ok mtyp'.
Proof.
  eexists. split; [vm_compute; reflexivity|].
  eapply (@loadOverrides_twice Sample.lib ∅ Sample.fooJSON).
  - apply (bool_decide_unpack _). vm_compute. exact I.
  - vm_compute. reflexivity.
Defined.

Lemma conversion_without_override_witness :
  @Convert Sample.lib Sample.ItemJSON ∅
    {| field := mkVar 40 "ID" (Basic "string") false true;
       typ := Pointer (Basic "string"); tag := EmptyString |} "x" = "&x.ID"
  /\ @ConvertBack Sample.lib Sample.ItemJSON ∅
       {| field := mkVar 40 "ID" (Basic "string") false true;
          typ := Pointer (Basic "string"); tag := EmptyString |} "dec" = "*dec.ID".
Proof.
  split.
  - apply (@conversion_without_override Sample.lib Sample.ItemJSON ∅
             {| field := mkVar 40 "ID" (Basic "string") false true;
                typ := Pointer (Basic "string"); tag := EmptyString |} "x");
      reflexivity.
  - apply (@conversion_without_override Sample.lib Sample.ItemJSON ∅
             {| field := mkVar 40 "ID" (Basic "string") false true;
                typ := Pointer (Basic "string"); tag := EmptyString |} "dec");
      reflexivity.
Defined.

Lemma encodedName_from_tag_witness :
  @encodedName Sample.lib
    {| field := mkVar 44 "Weight" (Pointer (Basic "int")) false true;
       typ := Pointer (Basic "int"); tag := Sample.quoted "json" "wt,omitempty" |}
    "json" = Ok "wt".
Proof.
  apply (@encodedName_from_tag Sample.lib _ "json" "wt" ",omitempty").
  - vm_compute. reflexivity.
  - right. by exists "omitempty".
  - intros [|[|i]]; discriminate.
  - discriminate.
  - discriminate.
Defined.

Lemma omitted_field_witness :
  @isOptional Sample.lib Sample.secretField "json" = true
  /\ @encodedName Sample.lib Sample.secretField "json" = Ok "secret".
Proof.
  destruct (@omitted_field Sample.lib Sample.secretField "json") as [Hopt Hname].
  - left. vm_compute. reflexivity.
  - split; [exact Hopt|]. rewrite Hname. vm_compute. reflexivity.
Defined.

Lemma computeImports_keys_witness :
  exists s,
    computeImports Sample.AccountJSON ∅ = Ok s
    /\ seen s !! "json" = Some "encoding/json"
    /\ seen s !! "errors" = Some "errors".
Proof.
  destruct (computeImports Sample.AccountJSON ∅) as [s| |] eqn:Hrun;
    [|vm_compute in Hrun; discriminate..].
  exists s. split; [reflexivity|].
  destruct (computeImports_keys Sample.AccountJSON ∅ s Hrun) as (Hjson & Herrors & _).
  by split.
Defined.

Lemma computeImports_renames_witness :
  exists s,
    computeImports Sample.AccountJSON ∅ = Ok s
    /\ pkgName (names s) Sample.mainPkg = "main".
Proof.
  destruct (computeImports Sample.AccountJSON ∅) as [s| |] eqn:Hrun;
    [|vm_compute in Hrun; discriminate..].
  exists s. split; [reflexivity|].
  destruct (computeImports_renames Sample.AccountJSON ∅ s Hrun) as [Hown _].
  by rewrite (Hown Sample.mainPkg eq_refl).
Defined.

Lemma addNamed_twice_witness :
  exists s',
    addNamed Sample.AccountJSON {| obj_pkg := Some Sample.bigPkg; obj_name := "Int" |}
      Sample.seeded = Ok s'
    /\ addNamed Sample.AccountJSON {| obj_pkg := Some Sample.bigPkg; obj_name := "Int" |}
         s' = Ok s'.
Proof.
  eexists. split; [vm_compute; reflexivity|].
  apply (addNamed_twice Sample.AccountJSON _ Sample.seeded). vm_compute. reflexivity.
Defined.

Lemma computeImports_panics_witness :
  exists why, computeImports Sample.ReportJSON ∅ = Panic why.
Proof.
  apply computeImports_panics. right.
  exists {| obj_pkg := None; obj_name := "error" |}.
  split; [|by split]. apply list_elem_of_here.
Defined.

Lemma renderImports_lines_witness :
  exists sorted,
    sorted ≡ₚ (map_to_list (seen Sample.seeded)).*1
    /\ NoDup sorted
    /\ Sorted String.le sorted.
Proof.
  destruct (renderImports_lines (seen Sample.seeded) (Sample.keysDown (seen Sample.seeded)))
    as (sorted & Hperm & Hnd & Hsorted & _).
  - unfold MapKeys, Sample.keysDown. apply reverse_Permutation.
  - by exists sorted.
Defined.


Lemma lookupStructType_struct_witness :
  Sample.scope !! "foo" = Some (ObjTypeName (Some Sample.foo))
  /\ (exists fields tags, named_underlying Sample.foo = Struct fields tags)
  /\ is_ok (@newMarshalerType Sample.lib Sample.foo) = true.
Proof.
  apply (@lookupStructType_struct Sample.lib Sample.scope "foo"). vm_compute. reflexivity.
Defined.

Lemma makeMarshalingCode_scope_lookups_witness :
  @makeMarshalingCode_scope Sample.lib Sample.keysUp Sample.mainPkg Sample.scope
    "specialString" "fooMarshaling"
  = Fatal "can't find specialString: not a struct type"
  /\ @makeMarshalingCode_scope Sample.lib Sample.keysUp Sample.mainPkg Sample.scope
       "foo" "fooMarshaling"
     = @makeMarshalingCode Sample.lib Sample.keysUp Sample.mainPkg Sample.foo
         (Some ("fooMarshaling", Sample.fooMarshaling)).
Proof.
  destruct (@makeMarshalingCode_scope_lookups Sample.lib Sample.keysUp Sample.mainPkg
              Sample.scope "specialString" "fooMarshaling") as (Hmissing & _).
  destruct (@makeMarshalingCode_scope_lookups Sample.lib Sample.keysUp Sample.mainPkg
              Sample.scope "foo" "fooMarshaling") as (_ & _ & _ & Hfound).
  split.
  - apply (Hmissing "not a struct type"). vm_compute. reflexivity.
  - apply Hfound; [vm_compute; reflexivity|discriminate|vm_compute; reflexivity].
Defined.


Lemma add_numbered_alias_unchecked_witness :
  exists s',
    add "big" "example.org/big" (Some Sample.otherBigPkg) Sample.crowded = Ok s'
    /\ seen s' !! "_big_0" = Some "example.org/big"
    /\ dom (seen s') = dom (seen Sample.crowded)
    /\ pkgName (names s') Sample.otherBigPkg = "_big_0".
Proof.
  apply (add_numbered_alias_unchecked "big" "example.org/big" "example.org/big_0"
           Sample.otherBigPkg Sample.crowded).
  - vm_compute. discriminate.
  - vm_compute. discriminate.
  - vm_compute. reflexivity.
Defined.
